(** * The {packet, N} framing protocol of package [link] (packetn.go)

    A shallow embedding of [PNProtocol], [PNWriter] and [PNReader] together
    with the parts of the Go runtime and standard library they call:
    integer conversions, slices, [encoding/binary], [io.ReadFull] and a
    scripted [net.Conn].  Runtime panics are results of their own, and Go's
    [int] is taken to be 64 bits wide. *)

From Stdlib Require Import String Strings.Byte.
From Stdlib Require Import ZArith List Lia Bool.
Import ListNotations.

Local Open Scope Z_scope.

(** ** Results of Go calls *)

(** A call returns, panics, or does not return at all.  [Hang] is what the
    loop of [IO.ReadAtLeast] yields when its budget runs out.  On the
    connections modelled below, whose read script is finite, it never does
    (lemma [ReadFull_result]); a connection that for ever returns no byte
    and no error, on which the loop never ends, is outside the model, and
    nothing here says that a call returns on every connection. *)
Inductive result (A : Type) : Type :=
| Ok (a : A)
| Panic (msg : string)
| Hang.

Arguments Ok {A} a.
Arguments Panic {A} msg.
Arguments Hang {A}.

Definition bind {A B : Type} (m : result A) (k : A -> result B) : result B :=
  match m with
  | Ok a => k a
  | Panic msg => Panic msg
  | Hang => Hang
  end.

Declare Scope go_scope.
Delimit Scope go_scope with go.
Notation "x <- m ;; k" := (bind m (fun x => k))
  (at level 61, m at next level, right associativity) : go_scope.
Notation "' p <- m ;; k" := (bind m (fun x => let p := x in k))
  (at level 61, p pattern, m at next level, right associativity) : go_scope.
Local Open Scope go_scope.

(** ** Integer conversions *)

Module GoInt.

(** The largest [int]; the length of every slice is at most this. *)
Definition MaxInt : Z := 2 ^ 63 - 1.

(** [byte(x)] *)
Definition to_byte (x : Z) : byte :=
  match Byte.of_N (Z.to_N (x mod 2 ^ 8)) with
  | Some b => b
  | None => Byte.x00
  end.

(** [int(b)], [uint16(b)], [uint32(b)], [uint64(b)] for a byte [b] *)
Definition of_byte (b : byte) : Z := Z.of_N (Byte.to_N b).

(** [uint16(x)], [uint32(x)], [uint64(x)] *)
Definition to_uint16 (x : Z) : Z := x mod 2 ^ 16.
Definition to_uint32 (x : Z) : Z := x mod 2 ^ 32.
Definition to_uint64 (x : Z) : Z := x mod 2 ^ 64.

(** [int(x)] for an unsigned [x]: two's complement on 64 bits *)
Definition to_int (x : Z) : Z := (x + 2 ^ 63) mod 2 ^ 64 - 2 ^ 63.

End GoInt.

(** ** Byte slices *)

Module Slice.

(** [make([]byte, n)] *)
Definition make (n : Z) : result (list byte) :=
  if n <? 0 then Panic "makeslice: len out of range"
  else Ok (repeat Byte.x00 (Z.to_nat n)).

(** [b[i]] *)
Definition index (b : list byte) (i : nat) : result byte :=
  match nth_error b i with
  | Some x => Ok x
  | None => Panic "index out of range"
  end.

(** [b[i] = x] *)
Definition store (b : list byte) (i : nat) (x : byte) : result (list byte) :=
  if (i <? length b)%nat then Ok (firstn i b ++ x :: skipn (S i) b)
  else Panic "index out of range".

(** [copy(b[n:], bs)] for [n + len(bs) <= len(b)] *)
Definition store_at (b : list byte) (n : nat) (bs : list byte) : list byte :=
  firstn n b ++ bs ++ skipn (n + length bs) b.

End Slice.

(** ** encoding/binary *)

Module Binary.
Import GoInt Slice.

Inductive ByteOrder : Type := BigEndian | LittleEndian.

Definition PutUint16 (o : ByteOrder) (b : list byte) (v : Z) : result (list byte) :=
  _ <- index b 1 ;;
  match o with
  | LittleEndian =>
      b <- store b 0 (to_byte v) ;;
      store b 1 (to_byte (Z.shiftr v 8))
  | BigEndian =>
      b <- store b 0 (to_byte (Z.shiftr v 8)) ;;
      store b 1 (to_byte v)
  end.

Definition PutUint32 (o : ByteOrder) (b : list byte) (v : Z) : result (list byte) :=
  _ <- index b 3 ;;
  match o with
  | LittleEndian =>
      b <- store b 0 (to_byte v) ;;
      b <- store b 1 (to_byte (Z.shiftr v 8)) ;;
      b <- store b 2 (to_byte (Z.shiftr v 16)) ;;
      store b 3 (to_byte (Z.shiftr v 24))
  | BigEndian =>
      b <- store b 0 (to_byte (Z.shiftr v 24)) ;;
      b <- store b 1 (to_byte (Z.shiftr v 16)) ;;
      b <- store b 2 (to_byte (Z.shiftr v 8)) ;;
      store b 3 (to_byte v)
  end.

Definition PutUint64 (o : ByteOrder) (b : list byte) (v : Z) : result (list byte) :=
  _ <- index b 7 ;;
  match o with
  | LittleEndian =>
      b <- store b 0 (to_byte v) ;;
      b <- store b 1 (to_byte (Z.shiftr v 8)) ;;
      b <- store b 2 (to_byte (Z.shiftr v 16)) ;;
      b <- store b 3 (to_byte (Z.shiftr v 24)) ;;
      b <- store b 4 (to_byte (Z.shiftr v 32)) ;;
      b <- store b 5 (to_byte (Z.shiftr v 40)) ;;
      b <- store b 6 (to_byte (Z.shiftr v 48)) ;;
      store b 7 (to_byte (Z.shiftr v 56))
  | BigEndian =>
      b <- store b 0 (to_byte (Z.shiftr v 56)) ;;
      b <- store b 1 (to_byte (Z.shiftr v 48)) ;;
      b <- store b 2 (to_byte (Z.shiftr v 40)) ;;
      b <- store b 3 (to_byte (Z.shiftr v 32)) ;;
      b <- store b 4 (to_byte (Z.shiftr v 24)) ;;
      b <- store b 5 (to_byte (Z.shiftr v 16)) ;;
      b <- store b 6 (to_byte (Z.shiftr v 8)) ;;
      store b 7 (to_byte v)
  end.

(** [x | y<<k] on unsigned values *)
Definition or_shl (x y : Z) (k : Z) : Z := Z.lor x (Z.shiftl y k).

Definition Uint16 (o : ByteOrder) (b : list byte) : result Z :=
  _ <- index b 1 ;;
  b0 <- index b 0 ;;
  b1 <- index b 1 ;;
  match o with
  | LittleEndian => Ok (or_shl (of_byte b0) (of_byte b1) 8)
  | BigEndian => Ok (or_shl (of_byte b1) (of_byte b0) 8)
  end.

Definition Uint32 (o : ByteOrder) (b : list byte) : result Z :=
  _ <- index b 3 ;;
  b0 <- index b 0 ;;
  b1 <- index b 1 ;;
  b2 <- index b 2 ;;
  b3 <- index b 3 ;;
  match o with
  | LittleEndian =>
      Ok (or_shl (or_shl (or_shl (of_byte b0) (of_byte b1) 8) (of_byte b2) 16)
            (of_byte b3) 24)
  | BigEndian =>
      Ok (or_shl (or_shl (or_shl (of_byte b3) (of_byte b2) 8) (of_byte b1) 16)
            (of_byte b0) 24)
  end.

Definition Uint64 (o : ByteOrder) (b : list byte) : result Z :=
  _ <- index b 7 ;;
  b0 <- index b 0 ;;
  b1 <- index b 1 ;;
  b2 <- index b 2 ;;
  b3 <- index b 3 ;;
  b4 <- index b 4 ;;
  b5 <- index b 5 ;;
  b6 <- index b 6 ;;
  b7 <- index b 7 ;;
  match o with
  | LittleEndian =>
      Ok (or_shl (or_shl (or_shl (or_shl (or_shl (or_shl (or_shl
            (of_byte b0) (of_byte b1) 8) (of_byte b2) 16) (of_byte b3) 24)
            (of_byte b4) 32) (of_byte b5) 40) (of_byte b6) 48) (of_byte b7) 56)
  | BigEndian =>
      Ok (or_shl (or_shl (or_shl (or_shl (or_shl (or_shl (or_shl
            (of_byte b7) (of_byte b6) 8) (of_byte b5) 16) (of_byte b4) 24)
            (of_byte b3) 32) (of_byte b2) 40) (of_byte b1) 48) (of_byte b0) 56)
  end.

End Binary.

(** ** Errors, connections and io.ReadFull *)

Module IO.
Import Slice.

(** Go's [error] values that matter here: the sentinels of package [io]
    that [ReadAtLeast] tests for or produces, and any other transport
    failure, told apart by a code.
    Modelled from the spec: [PacketTooLargeError] is declared outside
    packetn.go; a single sentinel value that tells a size-policy violation
    from a transport failure. *)
Inductive error : Type :=
| EOF
| ErrUnexpectedEOF
| ErrShortBuffer
| PacketTooLargeError
| NetError (code : nat).

Definition is_EOF (e : option error) : bool :=
  match e with
  | Some EOF => true
  | _ => false
  end.

Definition is_nil (e : option error) : bool :=
  match e with
  | None => true
  | Some _ => false
  end.

(** What the peer and the network will do, in order.  [Rd data err]: the
    next bytes to arrive, and the error (if any) reported with the last of
    them.  [WrOk]: the next [Write] is accepted whole; [WrFail n err]: it
    fails with [err] after at most [n] bytes. *)
Inductive rd_event : Type := Rd (data : list byte) (err : option error).
Inductive wr_event : Type := WrOk | WrFail (n : nat) (err : error).

(** A [net.Conn]: the script of its reads (once exhausted, the stream is
    at its end), the script of its writes (once exhausted, writes are
    accepted) and the bytes it has put on the wire so far. *)
Record Conn : Type := mkConn {
  rd : list rd_event;
  wr : list wr_event;
  sent : list byte
}.

Definition set_rd (c : Conn) (s : list rd_event) : Conn :=
  mkConn s (wr c) (sent c).

(** [conn.Read(p)] with [len(p) = k]: the bytes stored in [p], the error
    and the connection afterwards. *)
Definition Read (c : Conn) (k : nat) : list byte * option error * Conn :=
  match rd c with
  | [] => ([], Some EOF, c)
  | Rd data err :: rest =>
      if (length data <=? k)%nat then (data, err, set_rd c rest)
      else (firstn k data, None, set_rd c (Rd (skipn k data) err :: rest))
  end.

(** [conn.Write(b)]: the count, the error and the connection afterwards. *)
Definition Write (c : Conn) (b : list byte) : nat * option error * Conn :=
  match wr c with
  | [] => (length b, None, mkConn (rd c) [] (sent c ++ b))
  | WrOk :: rest => (length b, None, mkConn (rd c) rest (sent c ++ b))
  | WrFail n err :: rest =>
      (Nat.min n (length b), Some err,
       mkConn (rd c) rest (sent c ++ firstn n b))
  end.

(** The loop of [io.ReadAtLeast]:
    [for n < min && err == nil { nn, err = r.Read(buf[n:]); n += nn }]. *)
Fixpoint ReadAtLeast_loop (fuel : nat) (c : Conn) (buf : list byte)
    (min n : nat) (err : option error)
  : result (list byte * nat * option error * Conn) :=
  if (n <? min)%nat && is_nil err then
    match fuel with
    | O => Hang
    | S fuel' =>
        let '(bs, err', c') := Read c (length buf - n) in
        ReadAtLeast_loop fuel' c' (store_at buf n bs) min (n + length bs)%nat err'
    end
  else Ok (buf, n, err, c).

(** [io.ReadAtLeast(c, buf, min)]; the slice [buf] as filled, [n], [err]
    and the connection afterwards. *)
Definition ReadAtLeast (c : Conn) (buf : list byte) (min : nat)
  : result (list byte * nat * option error * Conn) :=
  if (length buf <? min)%nat then Ok (buf, O, Some ErrShortBuffer, c)
  else
    '(buf', n, err, c') <- ReadAtLeast_loop (S (length (rd c))) c buf min O None ;;
    if (min <=? n)%nat then Ok (buf', n, None, c')
    else if (0 <? n)%nat && is_EOF err then Ok (buf', n, Some ErrUnexpectedEOF, c')
    else Ok (buf', n, err, c').

(** [io.ReadFull(c, buf)] *)
Definition ReadFull (c : Conn) (buf : list byte)
  : result (list byte * nat * option error * Conn) :=
  ReadAtLeast c buf (length buf).

End IO.


(** ** The buffers handed to the protocol *)

Module Buffer.
Import GoInt.

(** Modelled from the spec: the [OutBuffer] interface is declared outside
    packetn.go; [Len() -> int] and [Get() -> read-only byte view of the
    payload to send].  The payload is a Go slice, so its length is an
    [int]. *)
Record OutBuffer : Type := mkOut {
  OutData : list byte;
  OutData_fits : (Z.of_nat (length OutData) <=? MaxInt) = true
}.

Definition Len (b : OutBuffer) : Z := Z.of_nat (length (OutData b)).
Definition Get (b : OutBuffer) : list byte := OutData b.

(** Modelled from the spec: the [InBuffer] interface is declared outside
    packetn.go; [Prepare(size)] (resize/reset to receive [size] bytes) and
    [Get() -> mutable byte view of that size to fill].  [Prepared] logs the
    sizes [Prepare] was called with, latest first; it is there to tell an
    untouched buffer from a prepared one.  A negative size cannot be the
    length of a slice and panics. *)
Record InBuffer : Type := mkIn {
  InData : list byte;
  Prepared : list Z
}.

Definition Prepare (size : Z) (b : InBuffer) : result InBuffer :=
  if size <? 0 then Panic "slice bounds out of range"
  else Ok (mkIn (repeat Byte.x00 (Z.to_nat size)) (size :: Prepared b)).

Definition InGet (b : InBuffer) : list byte := InData b.

(** The bytes stored through the view returned by [Get()]. *)
Definition fill (b : InBuffer) (d : list byte) : InBuffer :=
  mkIn d (Prepared b).

End Buffer.

(** ** The {packet, N} writer *)

Module Writer.
Import GoInt Slice Binary IO Buffer.

(** [encodeHead] is the closure chosen by [NewPNWriter]; it writes into
    [w.head], here passed in and returned. *)
Record PNWriter : Type := mkPNWriter {
  MaxPacketSize : Z;
  head : list byte;
  encodeHead : Z -> list byte -> result (list byte)
}.

Definition set_MaxPacketSize (w : PNWriter) (m : Z) : PNWriter :=
  mkPNWriter m (head w) (encodeHead w).

Definition set_head (w : PNWriter) (h : list byte) : PNWriter :=
  mkPNWriter (MaxPacketSize w) h (encodeHead w).

Definition NewPNWriter (n : Z) (byteOrder : ByteOrder) : result PNWriter :=
  h <- make n ;;
  match n with
  | 1 => Ok (mkPNWriter 0 h (fun size head => store head 0 (to_byte size)))
  | 2 => Ok (mkPNWriter 0 h (fun size head => PutUint16 byteOrder head (to_uint16 size)))
  | 4 => Ok (mkPNWriter 0 h (fun size head => PutUint32 byteOrder head (to_uint32 size)))
  | 8 => Ok (mkPNWriter 0 h (fun size head => PutUint64 byteOrder head (to_uint64 size)))
  | _ => Panic "unsupported packet head size"
  end.

(** The error returned, the writer and the connection afterwards. *)
Definition WritePacket (w : PNWriter) (conn : Conn) (buffer : OutBuffer)
  : result (option error * PNWriter * Conn) :=
  let size := Len buffer in
  if (0 <? MaxPacketSize w) && (MaxPacketSize w <? size) then
    Ok (Some PacketTooLargeError, w, conn)
  else
    h <- encodeHead w size (head w) ;;
    let w := set_head w h in
    let '(_, err, conn) := Write conn (head w) in
    match err with
    | Some e => Ok (Some e, w, conn)
    | None =>
        if size =? 0 then Ok (None, w, conn)
        else
          let '(_, err, conn) := Write conn (Get buffer) in
          match err with
          | Some e => Ok (Some e, w, conn)
          | None => Ok (None, w, conn)
          end
    end.

End Writer.

(** ** The {packet, N} reader *)

Module Reader.
Import GoInt Slice Binary IO Buffer.

(** [decodeHead] is the closure chosen by [NewPNReader]; it reads
    [r.head], here passed in. *)
Record PNReader : Type := mkPNReader {
  MaxPacketSize : Z;
  head : list byte;
  decodeHead : list byte -> result Z
}.

Definition set_MaxPacketSize (r : PNReader) (m : Z) : PNReader :=
  mkPNReader m (head r) (decodeHead r).

Definition set_head (r : PNReader) (h : list byte) : PNReader :=
  mkPNReader (MaxPacketSize r) h (decodeHead r).

Definition NewPNReader (n : Z) (byteOrder : ByteOrder) : result PNReader :=
  h <- make n ;;
  match n with
  | 1 => Ok (mkPNReader 0 h (fun head => b <- index head 0 ;; Ok (to_int (of_byte b))))
  | 2 => Ok (mkPNReader 0 h (fun head => v <- Uint16 byteOrder head ;; Ok (to_int v)))
  | 4 => Ok (mkPNReader 0 h (fun head => v <- Uint32 byteOrder head ;; Ok (to_int v)))
  | 8 => Ok (mkPNReader 0 h (fun head => v <- Uint64 byteOrder head ;; Ok (to_int v)))
  | _ => Panic "unsupported packet head size"
  end.

(** The error returned, the reader, the connection and the caller's
    buffer afterwards. *)
Definition ReadPacket (r : PNReader) (conn : Conn) (buffer : InBuffer)
  : result (option error * PNReader * Conn * InBuffer) :=
  '(h, _, err, conn) <- ReadFull conn (head r) ;;
  let r := set_head r h in
  match err with
  | Some e => Ok (Some e, r, conn, buffer)
  | None =>
      size <- decodeHead r (head r) ;;
      if size =? 0 then Ok (None, r, conn, buffer)
      else if (0 <? MaxPacketSize r) && (MaxPacketSize r <? size) then
        Ok (Some PacketTooLargeError, r, conn, buffer)
      else
        buffer <- Prepare size buffer ;;
        '(d, _, err, conn) <- ReadFull conn (InGet buffer) ;;
        let buffer := fill buffer d in
        match err with
        | Some e => Ok (Some e, r, conn, buffer)
        | None => Ok (None, r, conn, buffer)
        end
  end.

End Reader.

(** ** The protocol descriptor *)

Module Protocol.
Import Binary Writer Reader.

Record PNProtocol (BF : Type) : Type := mkPNProtocol {
  MaxPacketSize : Z;
  n : Z;
  bo : ByteOrder;
  bf : BF
}.

Arguments mkPNProtocol {BF} _ _ _ _.
Arguments MaxPacketSize {BF} _.
Arguments n {BF} _.
Arguments bo {BF} _.
Arguments bf {BF} _.

(** [PacketN] has no failing path; its outcome is a [result] so that it
    can be set beside those of the constructors below. *)
Definition PacketN {BF : Type} (n : Z) (bo : ByteOrder) (bf : BF)
  : result (PNProtocol BF) :=
  Ok (mkPNProtocol 0 n bo bf).

Definition BufferFactory {BF : Type} (p : PNProtocol BF) : BF := bf p.

Definition NewWriter {BF : Type} (p : PNProtocol BF) : result PNWriter :=
  w <- NewPNWriter (n p) (bo p) ;;
  Ok (Writer.set_MaxPacketSize w (MaxPacketSize p)).

Definition NewReader {BF : Type} (p : PNProtocol BF) : result PNReader :=
  r <- NewPNReader (n p) (bo p) ;;
  Ok (Reader.set_MaxPacketSize r (MaxPacketSize p)).

End Protocol.

(** * Vocabulary of the properties *)

Import GoInt Slice Binary IO Buffer.

(** The header widths the constructors accept. *)
Definition supported (n : Z) : Prop := In n [1; 2; 4; 8].

(** The bytes of [v], least significant first, and their order on the
    wire. *)
Definition digits16 (v : Z) : list byte :=
  [to_byte v; to_byte (Z.shiftr v 8)].
Definition digits32 (v : Z) : list byte :=
  digits16 v ++ [to_byte (Z.shiftr v 16); to_byte (Z.shiftr v 24)].
Definition digits64 (v : Z) : list byte :=
  digits32 v ++ [to_byte (Z.shiftr v 32); to_byte (Z.shiftr v 40);
                 to_byte (Z.shiftr v 48); to_byte (Z.shiftr v 56)].

Definition ordered (o : ByteOrder) (l : list byte) : list byte :=
  match o with
  | LittleEndian => l
  | BigEndian => rev l
  end.

(** [w] was made by [NewPNWriter n o]; its exported [MaxPacketSize] may
    have been assigned and its scratch header overwritten since. *)
Definition writer_for (n : Z) (o : ByteOrder) (w : Writer.PNWriter) : Prop :=
  exists w0, Writer.NewPNWriter n o = Ok w0
             /\ Writer.encodeHead w = Writer.encodeHead w0
             /\ length (Writer.head w) = length (Writer.head w0).

(** Likewise [r] was made by [NewPNReader n o]. *)
Definition reader_for (n : Z) (o : ByteOrder) (r : Reader.PNReader) : Prop :=
  exists r0, Reader.NewPNReader n o = Ok r0
             /\ Reader.decodeHead r = Reader.decodeHead r0
             /\ length (Reader.head r) = length (Reader.head r0).

(** All the bytes a read script still holds. *)
Definition pending (s : list rd_event) : list byte :=
  flat_map (fun ev => match ev with Rd d _ => d end) s.

(** The script delivers the bytes [bs] before any error or the end of the
    stream can keep a reader from them. *)
Fixpoint carries (s : list rd_event) (bs : list byte) : Prop :=
  match s with
  | [] => bs = []
  | Rd d e :: s' =>
      (exists tail, d = bs ++ tail)
      \/ (e = None /\ exists rest, bs = d ++ rest /\ carries s' rest)
  end.

(** Every write still scripted is accepted. *)
Definition healthy (c : Conn) : Prop := Forall (fun ev => ev = WrOk) (wr c).

(** The size check shared by [WritePacket] and [ReadPacket]. *)
Definition over_limit (m size : Z) : bool := (0 <? m) && (m <? size).

(** The payload of the concrete scenario, the ASCII bytes of "hello", and
    the empty payload. *)
Definition hello : OutBuffer := mkOut [x68; x65; x6c; x6c; x6f] eq_refl.
Definition empty : OutBuffer := mkOut [] eq_refl.

(** A payload too long for a one-byte header: 300 bytes. *)
Definition payload300 : OutBuffer := mkOut (repeat x61 300) eq_refl.

(** No error is scripted on the stream: it delivers its bytes and ends. *)
Definition clean (s : list rd_event) : Prop :=
  Forall (fun ev => match ev with Rd _ e => e = None end) s.

(** The caller's buffer after a frame with payload [p] has been read into
    it: untouched for an empty payload, else prepared once, for the
    payload's length, and filled with [p]. *)
Definition received (inb : InBuffer) (p : list byte) : InBuffer :=
  match p with
  | [] => inb
  | _ => mkIn p (Z.of_nat (length p) :: Prepared inb)
  end.

(** [read_run len c n c' n']: with [n] bytes of a buffer of [len] bytes in
    hand on [c], [ReadAtLeast] calls [Read] for the rest of the buffer;
    each of these calls returns no error and leaves the buffer short, and
    they lead to [c'] with [n'] bytes in hand. *)
Inductive read_run (len : nat) : Conn -> nat -> Conn -> nat -> Prop :=
| run_done (c : Conn) (n : nat) : read_run len c n c n
| run_more (c c1 c' : Conn) (n n' : nat) (bs : list byte) :
    Read c (len - n) = (bs, None, c1) ->
    (n + length bs < len)%nat ->
    read_run len c1 (n + length bs) c' n' ->
    read_run len c n c' n'.

(** What [ReadAtLeast] returns for the error [e] of a [Read] that leaves it
    with [k] bytes, fewer than it needs. *)
Definition reported (k : nat) (e : error) : error :=
  if (0 <? k)%nat && is_EOF (Some e) then ErrUnexpectedEOF else e.

(** * Proofs *)

(** ** Bytes and the header codec *)

Lemma of_byte_range (b : byte) : 0 <= of_byte b < 2 ^ 8.
Proof.
  unfold of_byte. pose proof (Byte.to_N_bounded b) as H.
  change (2 ^ 8) with 256. lia.
Qed.

Lemma of_byte_to_byte (x : Z) : of_byte (to_byte x) = x mod 2 ^ 8.
Proof.
  unfold of_byte, to_byte.
  assert (Hr : 0 <= x mod 2 ^ 8 < 2 ^ 8) by (apply Z.mod_pos_bound; reflexivity).
  destruct (Byte.of_N (Z.to_N (x mod 2 ^ 8))) as [b|] eqn:E.
  - apply Byte.to_of_N in E. rewrite E. apply Z2N.id. apply Hr.
  - apply Byte.of_N_None_iff in E. apply N2Z.inj_lt in E. rewrite Z2N.id in E by apply Hr.
    change (2 ^ 8) with 256 in *. change (Z.of_N 255) with 255 in E. destruct Hr. lia.
Qed.

Lemma land_shifted (x y k : Z) :
  0 <= k -> 0 <= x < 2 ^ k -> Z.land x (y * 2 ^ k) = 0.
Proof.
  intros Hk Hx. apply Z.bits_inj'. intros i Hi.
  rewrite Z.land_spec, Z.bits_0.
  destruct (Z.lt_ge_cases i k) as [Hlow|Hhigh].
  - rewrite Z.mul_pow2_bits_low by assumption. apply andb_false_r.
  - destruct (Z.eq_dec x 0) as [->|Hx0]; [rewrite Z.bits_0; reflexivity|].
    rewrite (Z.bits_above_log2 x i); [reflexivity|lia|].
    apply Z.lt_le_trans with k; [|assumption].
    apply Z.log2_lt_pow2; lia.
Qed.

(** On disjoint bits, or is addition. *)
Lemma or_shl_add (x y k : Z) :
  0 <= k -> 0 <= x < 2 ^ k -> or_shl x y k = x + y * 2 ^ k.
Proof.
  intros Hk Hx. unfold or_shl.
  rewrite Z.shiftl_mul_pow2 by assumption.
  pose proof (land_shifted x y k Hk Hx) as Hland.
  rewrite <- Z.lxor_lor by assumption.
  rewrite <- Z.add_nocarry_lxor by assumption. reflexivity.
Qed.

Lemma byte_digit (v k : Z) :
  0 <= k -> of_byte (to_byte (Z.shiftr v k)) = (v / 2 ^ k) mod 2 ^ 8.
Proof.
  intros Hk. rewrite of_byte_to_byte, Z.shiftr_div_pow2 by assumption. reflexivity.
Qed.

Ltac pow2_consts :=
  change (2 ^ 8) with 256 in *; change (2 ^ 16) with 65536 in *;
  change (2 ^ 24) with 16777216 in *; change (2 ^ 32) with 4294967296 in *;
  change (2 ^ 40) with 1099511627776 in *; change (2 ^ 48) with 281474976710656 in *;
  change (2 ^ 56) with 72057594037927936 in *;
  change (2 ^ 64) with 18446744073709551616 in *.

Ltac digits_of v :=
  pose proof (of_byte_range (to_byte v));
  pose proof (of_byte_range (to_byte (Z.shiftr v 8)));
  pose proof (of_byte_range (to_byte (Z.shiftr v 16)));
  pose proof (of_byte_range (to_byte (Z.shiftr v 24)));
  pose proof (of_byte_range (to_byte (Z.shiftr v 32)));
  pose proof (of_byte_range (to_byte (Z.shiftr v 40)));
  pose proof (of_byte_range (to_byte (Z.shiftr v 48)));
  pose proof (of_byte_range (to_byte (Z.shiftr v 56))).

Ltac join_digits :=
  repeat match goal with
    | |- context [or_shl ?x ?y ?k] =>
        lazymatch x with
        | context [or_shl] => fail
        | _ => rewrite (or_shl_add x y k) by (pow2_consts; lia)
        end
    end;
  repeat match goal with H : _ <= of_byte _ < _ |- _ => clear H end.

Lemma PutUint16_bytes (o : ByteOrder) (a b : byte) (v : Z) :
  PutUint16 o [a; b] v = Ok (ordered o (digits16 v)).
Proof. destruct o; reflexivity. Qed.

Lemma PutUint32_bytes (o : ByteOrder) (a b c d : byte) (v : Z) :
  PutUint32 o [a; b; c; d] v = Ok (ordered o (digits32 v)).
Proof. destruct o; reflexivity. Qed.

Lemma PutUint64_bytes (o : ByteOrder) (a b c d e f g k : byte) (v : Z) :
  PutUint64 o [a; b; c; d; e; f; g; k] v = Ok (ordered o (digits64 v)).
Proof. destruct o; reflexivity. Qed.

Lemma Uint16_digits (o : ByteOrder) (v : Z) :
  0 <= v < 2 ^ 16 -> Uint16 o (ordered o (digits16 v)) = Ok v.
Proof.
  intros Hv. digits_of v.
  destruct o; cbv [Uint16 index nth_error bind ordered digits16 rev app]; f_equal;
    join_digits; rewrite (byte_digit v 8), of_byte_to_byte by lia;
    pow2_consts; Z.div_mod_to_equations; lia.
Qed.

Lemma Uint32_digits (o : ByteOrder) (v : Z) :
  0 <= v < 2 ^ 32 -> Uint32 o (ordered o (digits32 v)) = Ok v.
Proof.
  intros Hv. digits_of v.
  destruct o;
    cbv [Uint32 index nth_error bind ordered digits32 digits16 rev app]; f_equal;
    join_digits;
    rewrite (byte_digit v 8), (byte_digit v 16), (byte_digit v 24), of_byte_to_byte by lia;
    pow2_consts; Z.div_mod_to_equations; lia.
Qed.

Lemma Uint64_digits (o : ByteOrder) (v : Z) :
  0 <= v < 2 ^ 64 -> Uint64 o (ordered o (digits64 v)) = Ok v.
Proof.
  intros Hv. digits_of v.
  destruct o;
    cbv [Uint64 index nth_error bind ordered digits64 digits32 digits16 rev app];
    f_equal; join_digits;
    rewrite (byte_digit v 8), (byte_digit v 16), (byte_digit v 24),
      (byte_digit v 32), (byte_digit v 40), (byte_digit v 48), (byte_digit v 56),
      of_byte_to_byte by lia;
    pow2_consts; Z.div_mod_to_equations; lia.
Qed.

(** ** The constructors and the widths they accept *)

Lemma switch_default (A : Type) (n : Z) (a b c d e : A) :
  ~ supported n ->
  match n with 1 => a | 2 => b | 4 => c | 8 => d | _ => e end = e.
Proof.
  unfold supported. cbn [In]. intros H.
  destruct n as [|p|p]; try reflexivity.
  destruct p as [p|p|]; try reflexivity; [|exfalso; tauto].
  destruct p as [p|p|]; try reflexivity; [|exfalso; tauto].
  destruct p as [p|p|]; try reflexivity; [|exfalso; tauto].
  destruct p as [p|p|]; try reflexivity. exfalso; tauto.
Qed.

Lemma NewPNWriter_unsupported (n : Z) (o : ByteOrder) :
  ~ supported n -> exists msg, Writer.NewPNWriter n o = Panic msg.
Proof.
  intros H. unfold Writer.NewPNWriter, make.
  destruct (n <? 0); cbn [bind]; [eauto|].
  rewrite switch_default by assumption. eauto.
Qed.

Lemma NewPNReader_unsupported (n : Z) (o : ByteOrder) :
  ~ supported n -> exists msg, Reader.NewPNReader n o = Panic msg.
Proof.
  intros H. unfold Reader.NewPNReader, make.
  destruct (n <? 0); cbn [bind]; [eauto|].
  rewrite switch_default by assumption. eauto.
Qed.

Lemma supported_dec (n : Z) : {supported n} + {~ supported n}.
Proof. apply in_dec, Z.eq_dec. Qed.

Lemma NewPNWriter_supported (n : Z) (o : ByteOrder) (w : Writer.PNWriter) :
  Writer.NewPNWriter n o = Ok w -> supported n.
Proof.
  intros H. destruct (supported_dec n) as [|Hn]; [assumption|].
  destruct (NewPNWriter_unsupported n o Hn) as [msg E]. congruence.
Qed.

Lemma NewPNReader_supported (n : Z) (o : ByteOrder) (r : Reader.PNReader) :
  Reader.NewPNReader n o = Ok r -> supported n.
Proof.
  intros H. destruct (supported_dec n) as [|Hn]; [assumption|].
  destruct (NewPNReader_unsupported n o Hn) as [msg E]. congruence.
Qed.

Ltac widths H :=
  unfold supported in H; cbn [In] in H;
  destruct H as [<-|[<-|[<-|[<-|[]]]]].

Ltac built E :=
  lazy [Writer.NewPNWriter Reader.NewPNReader make bind Z.ltb Z.compare] in E;
  injection E as <-.

Ltac explicit_list l H :=
  repeat (destruct l as [|? l]; [discriminate H|]);
  destruct l; [clear H|discriminate H].

Lemma to_int_small (x : Z) : - 2 ^ 63 <= x < 2 ^ 63 -> to_int x = x.
Proof.
  intros H. unfold to_int. rewrite Z.mod_small; lia.
Qed.

Lemma writer_head_length (n : Z) (o : ByteOrder) (w : Writer.PNWriter) :
  writer_for n o w -> length (Writer.head w) = Z.to_nat n.
Proof.
  intros (w0 & E & _ & ->). pose proof (NewPNWriter_supported _ _ _ E) as Hn.
  widths Hn; built E; reflexivity.
Qed.

Lemma reader_head_length (n : Z) (o : ByteOrder) (r : Reader.PNReader) :
  reader_for n o r -> length (Reader.head r) = Z.to_nat n.
Proof.
  intros (r0 & E & _ & ->). pose proof (NewPNReader_supported _ _ _ E) as Hn.
  widths Hn; built E; reflexivity.
Qed.

(** The header a writer encodes is what a reader of the same width and byte
    order decodes, up to the truncation to the width. *)
Lemma encode_decode (n : Z) (o : ByteOrder) (w : Writer.PNWriter)
    (r : Reader.PNReader) (size : Z) :
  writer_for n o w -> reader_for n o r ->
  exists h, Writer.encodeHead w size (Writer.head w) = Ok h
            /\ length h = Z.to_nat n
            /\ Reader.decodeHead r h = Ok (to_int (size mod 2 ^ (8 * n))).
Proof.
  intros (w0 & Ew & -> & Lw) (r0 & Er & -> & _).
  pose proof (NewPNWriter_supported _ _ _ Ew) as Hn.
  widths Hn; built Ew; built Er; cbn [Writer.encodeHead Reader.decodeHead];
    remember (Writer.head w) as hd eqn:Ehd; clear Ehd;
    cbn in Lw; explicit_list hd Lw.
  - exists [to_byte size]. split; [reflexivity|]. split; [reflexivity|].
    cbv [index nth_error bind]. rewrite of_byte_to_byte. reflexivity.
  - rewrite PutUint16_bytes. eexists. split; [reflexivity|]. split.
    + destruct o; reflexivity.
    + rewrite Uint16_digits by (apply Z.mod_pos_bound; reflexivity). reflexivity.
  - rewrite PutUint32_bytes. eexists. split; [reflexivity|]. split.
    + destruct o; reflexivity.
    + rewrite Uint32_digits by (apply Z.mod_pos_bound; reflexivity). reflexivity.
  - rewrite PutUint64_bytes. eexists. split; [reflexivity|]. split.
    + destruct o; reflexivity.
    + rewrite Uint64_digits by (apply Z.mod_pos_bound; reflexivity). reflexivity.
Qed.

(** ** The connection and io.ReadFull *)

(** What one [Read] does: it takes the bytes it returns off the stream and
    touches nothing else; and it consumes a scripted event, or fills the
    whole request, or reports the end of the stream. *)
Lemma Read_effect (c c' : Conn) (k : nat) (bs : list byte) (e : option error) :
  Read c k = (bs, e, c') ->
  (length bs <= k)%nat /\ pending (rd c) = bs ++ pending (rd c')
  /\ wr c' = wr c /\ sent c' = sent c
  /\ ((length (rd c') < length (rd c))%nat
      \/ (length bs = k /\ e = None)
      \/ (e = Some EOF /\ c' = c /\ bs = [])).
Proof.
  unfold Read. destruct (rd c) as [|[d err] rest] eqn:E.
  - intros [= <- <- <-]. rewrite E. cbn. repeat split; try lia. right. right. auto.
  - destruct (Nat.leb_spec (length d) k) as [Hle|Hgt]; intros [= <- <- <-]; cbn.
    + repeat split; try assumption. left. lia.
    + rewrite length_firstn, app_assoc, firstn_skipn.
      repeat split; try lia. right. left. split; [lia|reflexivity].
Qed.

Lemma length_store_at (buf bs : list byte) (n : nat) :
  (n + length bs <= length buf)%nat -> length (store_at buf n bs) = length buf.
Proof.
  intros H. unfold store_at. rewrite !length_app, length_firstn, length_skipn. lia.
Qed.

Lemma ReadAtLeast_loop_exit (fuel : nat) (c : Conn) (buf : list byte)
    (min n : nat) (err : option error) :
  (min <= n)%nat -> ReadAtLeast_loop fuel c buf min n err = Ok (buf, n, err, c).
Proof.
  intros H. destruct fuel; cbn [ReadAtLeast_loop];
    (replace ((n <? min)%nat) with false by (symmetry; apply Nat.ltb_ge; lia));
    reflexivity.
Qed.

Lemma ReadAtLeast_loop_exit_err (fuel : nat) (c : Conn) (buf : list byte)
    (min n : nat) (e : error) :
  ReadAtLeast_loop fuel c buf min n (Some e) = Ok (buf, n, Some e, c).
Proof.
  destruct fuel; cbn [ReadAtLeast_loop is_nil]; rewrite andb_false_r; reflexivity.
Qed.

(** The loop of [ReadAtLeast] returns within its budget; it stops with
    enough bytes or with an error, and any error it leaves in [err] is the
    one the last [Read] reported. *)
Lemma ReadAtLeast_loop_result (fuel : nat) :
  forall (c : Conn) (buf : list byte) (min n : nat) (err : option error),
    (length (rd c) < fuel)%nat -> (min <= length buf)%nat -> (n <= length buf)%nat ->
    exists buf' n' err' c',
      ReadAtLeast_loop fuel c buf min n err = Ok (buf', n', err', c')
      /\ length buf' = length buf /\ (n <= n' <= length buf)%nat
      /\ wr c' = wr c /\ sent c' = sent c
      /\ (err' = err /\ c' = c
          \/ exists c1 k bs, Read c1 k = (bs, err', c'))
      /\ ((min <= n')%nat \/ err' <> None).
Proof.
  induction fuel as [|fuel IH]; intros c buf min n err Hf Hmin Hn; [lia|].
  cbn [ReadAtLeast_loop].
  destruct ((n <? min)%nat && is_nil err) eqn:Econd.
  2:{ exists buf, n, err, c. repeat split; auto.
      apply andb_false_iff in Econd as [H|H].
      - left. apply Nat.ltb_ge in H. assumption.
      - right. destruct err; [discriminate|discriminate H]. }
  apply andb_true_iff in Econd as [Hlt Hnil]. apply Nat.ltb_lt in Hlt.
  destruct err; [discriminate|].
  destruct (Read c (length buf - n)) as [[bs e1] c1] eqn:ER.
  pose proof (Read_effect _ _ _ _ _ ER) as (Hlen & _ & Hwr & Hsent & Hprog).
  assert (Hstore : length (store_at buf n bs) = length buf)
    by (apply length_store_at; lia).
  destruct Hprog as [Hdec|[[Hfull ->]|(-> & -> & ->)]].
  - destruct (IH c1 (store_at buf n bs) min (n + length bs)%nat e1)
      as (buf' & n' & err' & c' & E & Hl & Hn' & Hw' & Hs' & Hprov & Hstop); try lia.
    exists buf', n', err', c'. rewrite E.
    repeat split; try congruence; try lia; try assumption.
    destruct Hprov as [[-> ->]|Hprov]; [|right; assumption].
    right. exists c, (length buf - n)%nat, bs. assumption.
  - rewrite ReadAtLeast_loop_exit by lia.
    exists (store_at buf n bs), (n + length bs)%nat, None, c1.
    repeat split; try congruence; try lia; try (left; lia).
    right. exists c, (length buf - n)%nat, bs. assumption.
  - assert (Hexit : forall f, ReadAtLeast_loop f c (store_at buf n []) min (n + 0)
                                (Some EOF)
                              = Ok (store_at buf n [], (n + 0)%nat, Some EOF, c)).
    { intros f. destruct f; cbn [ReadAtLeast_loop is_nil];
        rewrite andb_false_r; reflexivity. }
    cbn [length]. rewrite Hexit.
    exists (store_at buf n []), (n + 0)%nat, (Some EOF), c.
    repeat split; try congruence; try lia; try (right; discriminate).
    right. exists c, (length buf - n)%nat, []. assumption.
Qed.

Lemma pending_cons (d : list byte) (e : option error) (s : list rd_event) :
  pending (Rd d e :: s) = d ++ pending s.
Proof. reflexivity. Qed.

Lemma carries_nil (s : list rd_event) : carries s [].
Proof. destruct s as [|[d e] s]; cbn; [reflexivity|]. left. exists d. reflexivity. Qed.

Lemma firstn_exact (A : Type) (l l' : list A) (k : nat) :
  length l = k -> firstn k (l ++ l') = l.
Proof.
  intros <-. rewrite firstn_app, Nat.sub_diag, firstn_all. cbn. apply app_nil_r.
Qed.

Lemma skipn_exact (A : Type) (l l' : list A) (k : nat) :
  length l = k -> skipn k (l ++ l') = l'.
Proof.
  intros <-. rewrite skipn_app, Nat.sub_diag, skipn_all. reflexivity.
Qed.

Lemma app_eq_split (A : Type) (l1 l2 d r : list A) :
  l1 ++ l2 = d ++ r -> (length d <= length l1)%nat ->
  exists m, l1 = d ++ m /\ r = m ++ l2.
Proof.
  revert l1. induction d as [|x d IH]; intros l1 E Hlen.
  - exists l1. cbn in E. auto.
  - destruct l1 as [|y l1]; [cbn in Hlen; lia|].
    cbn in E. injection E as -> E. destruct (IH l1 E) as (m & -> & ->).
    + cbn in Hlen. lia.
    + exists m. auto.
Qed.

Lemma store_at_fill (buf bs : list byte) (n : nat) :
  length buf = (n + length bs)%nat -> store_at buf n bs = firstn n buf ++ bs.
Proof.
  intros H. unfold store_at. rewrite skipn_all2 by lia. rewrite app_nil_r. reflexivity.
Qed.

Lemma firstn_store_at (buf bs : list byte) (n : nat) :
  (n <= length buf)%nat ->
  firstn (n + length bs) (store_at buf n bs) = firstn n buf ++ bs.
Proof.
  intros H. unfold store_at. rewrite app_assoc.
  apply firstn_exact. rewrite length_app, length_firstn. lia.
Qed.

(** Short reads: whatever the fragments a script delivers [bs] in, the loop
    gathers exactly [bs] and leaves what follows on the stream. *)
Lemma ReadAtLeast_loop_carries (fuel : nat) :
  forall (c : Conn) (buf : list byte) (min n : nat) (bs rest : list byte),
    carries (rd c) (bs ++ rest) ->
    length buf = min -> min = (n + length bs)%nat ->
    (length (rd c) < fuel)%nat ->
    exists e c',
      ReadAtLeast_loop fuel c buf min n None = Ok (firstn n buf ++ bs, min, e, c')
      /\ carries (rd c') rest
      /\ pending (rd c) = bs ++ pending (rd c')
      /\ wr c' = wr c /\ sent c' = sent c.
Proof.
  induction fuel as [|fuel IH]; intros c buf min n bs rest Hc Hbuf Hmin Hf; [lia|].
  destruct bs as [|b bs].
  { rewrite ReadAtLeast_loop_exit by (cbn in Hmin; lia).
    exists None, c. cbn in Hmin. rewrite app_nil_r, firstn_all2 by lia.
    replace n with min by lia. auto. }
  set (k := length (b :: bs)) in *.
  assert (Hk : (length buf - n)%nat = k) by lia.
  assert (Hpos : (0 < k)%nat) by (subst k; cbn; lia).
  cbn [ReadAtLeast_loop is_nil].
  replace ((n <? min)%nat) with true by (symmetry; apply Nat.ltb_lt; lia).
  cbn [andb]. rewrite Hk. unfold Read.
  destruct (rd c) as [|[d e] s'] eqn:Es; [discriminate Hc|].
  cbn [carries] in Hc. cbn [length] in Hf.
  destruct Hc as [[tail Hd]|(-> & rest' & Hd & Hc')].
  - destruct (Nat.leb_spec (length d) k) as [Hle|Hgt].
    + assert (Hz : rest = [] /\ tail = []).
      { rewrite Hd, !length_app in Hle. fold k in Hle.
        split; apply length_zero_iff_nil; lia. }
      destruct Hz as [-> ->]. rewrite !app_nil_r in Hd. subst d.
      rewrite ReadAtLeast_loop_exit by (fold k; lia).
      exists e, (set_rd c s'). rewrite store_at_fill by (fold k; lia).
      fold k. replace (n + k)%nat with min by lia.
      repeat split; auto using carries_nil.
    + rewrite Hd, <- app_assoc.
      rewrite firstn_exact, skipn_exact by reflexivity.
      rewrite ReadAtLeast_loop_exit by (fold k; lia).
      exists None, (set_rd c (Rd (rest ++ tail) e :: s')).
      rewrite store_at_fill by (fold k; lia).
      fold k. replace (n + k)%nat with min by lia.
      repeat split; auto.
      * cbn. left. exists tail. reflexivity.
      * cbn [rd set_rd]. rewrite !pending_cons, <- !app_assoc. reflexivity.
  - destruct (Nat.leb_spec (length d) k) as [Hle|Hgt].
    + destruct (app_eq_split _ _ _ _ _ Hd Hle) as (m & Hm & ->).
      assert (Hlm : k = (length d + length m)%nat)
        by (subst k; rewrite Hm, length_app; reflexivity).
      destruct (IH (set_rd c s') (store_at buf n d) min (n + length d)%nat m rest)
        as (e' & c' & E & Hcar & Hpend & Hw & Hs); auto.
      * rewrite length_store_at; lia.
      * lia.
      * cbn. lia.
      * exists e', c'. rewrite E, firstn_store_at by lia.
        rewrite Hm, <- app_assoc. cbn [rd set_rd] in Hpend.
        repeat split; auto.
        rewrite pending_cons, Hpend, <- app_assoc. reflexivity.
    + symmetry in Hd.
      destruct (app_eq_split _ _ _ _ _ Hd (Nat.lt_le_incl _ _ Hgt)) as (m & Hm & ->).
      rewrite Hm. rewrite firstn_exact, skipn_exact by reflexivity.
      rewrite ReadAtLeast_loop_exit by (fold k; lia).
      exists None, (set_rd c (Rd m None :: s')).
      rewrite store_at_fill by (fold k; lia).
      fold k. replace (n + k)%nat with min by lia.
      repeat split; auto.
      * cbn. right. split; [reflexivity|]. exists rest'. auto.
      * cbn [rd set_rd]. rewrite !pending_cons, <- !app_assoc. reflexivity.
Qed.

Lemma ReadFull_carries (c : Conn) (buf bs rest : list byte) :
  carries (rd c) (bs ++ rest) -> length buf = length bs ->
  exists c',
    ReadFull c buf = Ok (bs, length bs, None, c')
    /\ carries (rd c') rest
    /\ pending (rd c) = bs ++ pending (rd c')
    /\ wr c' = wr c /\ sent c' = sent c.
Proof.
  intros Hc Hlen. unfold ReadFull, ReadAtLeast.
  rewrite Nat.ltb_irrefl.
  destruct (ReadAtLeast_loop_carries (S (length (rd c))) c buf (length buf) 0 bs rest)
    as (e & c' & E & Hcar & Hpend & Hw & Hs); auto.
  rewrite E. cbn [bind firstn app]. rewrite Nat.leb_refl, Hlen.
  exists c'. auto.
Qed.

(** [ReadFull] always returns.  When it returns an error, the connection
    is left as the failing [Read] left it, and the error is the one that
    [Read] reported, but for [EOF] after some bytes, which comes back as
    [ErrUnexpectedEOF]. *)
Lemma ReadFull_result (c : Conn) (buf : list byte) :
  exists buf' n err c',
    ReadFull c buf = Ok (buf', n, err, c')
    /\ length buf' = length buf
    /\ wr c' = wr c /\ sent c' = sent c
    /\ (err = None -> n = length buf)
    /\ (forall e, err = Some e ->
        exists c1 k bs e1,
          Read c1 k = (bs, Some e1, c')
          /\ (e = e1 \/ (e1 = EOF /\ e = ErrUnexpectedEOF /\ (0 < n)%nat))).
Proof.
  unfold ReadFull, ReadAtLeast. rewrite Nat.ltb_irrefl.
  destruct (ReadAtLeast_loop_result (S (length (rd c))) c buf (length buf) 0 None)
    as (buf' & n & err & c' & E & Hl & Hn & Hw & Hs & Hprov & Hstop); try lia.
  rewrite E. cbn [bind].
  destruct (Nat.leb_spec (length buf) n) as [Hge|Hlt].
  - exists buf', n, None, c'. repeat split; auto; try lia. discriminate.
  - destruct Hstop as [Hstop|Hstop]; [lia|].
    destruct ((0 <? n)%nat && is_EOF err) eqn:Eeof.
    + exists buf', n, (Some ErrUnexpectedEOF), c'.
      repeat split; auto; try discriminate.
      intros e [= <-]. apply andb_true_iff in Eeof as [Hpos Heof].
      apply Nat.ltb_lt in Hpos.
      destruct err as [[]|]; try discriminate Heof.
      destruct Hprov as [[Hx _]|(c1 & k & bs & ER)]; [discriminate Hx|].
      exists c1, k, bs, EOF. auto.
    + exists buf', n, err, c'. repeat split; auto.
      * intros ->. contradiction.
      * intros e ->.
        destruct Hprov as [[Hx _]|(c1 & k & bs & ER)]; [discriminate Hx|].
        exists c1, k, bs, e. auto.
Qed.

(** ** One frame, written and read *)

Lemma Write_healthy (c : Conn) (b : list byte) :
  healthy c ->
  exists c', Write c b = (length b, None, c')
             /\ sent c' = sent c ++ b /\ rd c' = rd c /\ healthy c'.
Proof.
  unfold healthy, Write. intros H. destruct (wr c) as [|ev rest].
  - eexists. split; [reflexivity|]. cbn. auto.
  - inversion H as [|? ? -> Hrest]. eexists. split; [reflexivity|]. cbn. auto.
Qed.

Lemma write_frame_bytes (w : Writer.PNWriter) (c : Conn) (out : OutBuffer)
    (h : list byte) :
  healthy c ->
  over_limit (Writer.MaxPacketSize w) (Len out) = false ->
  Writer.encodeHead w (Len out) (Writer.head w) = Ok h ->
  exists c',
    Writer.WritePacket w c out = Ok (None, Writer.set_head w h, c')
    /\ sent c' = sent c ++ h ++ Get out
    /\ rd c' = rd c /\ healthy c'.
Proof.
  intros Hc Hlim Eh.
  unfold Writer.WritePacket. fold (over_limit (Writer.MaxPacketSize w) (Len out)).
  rewrite Hlim, Eh. cbn [bind Writer.head Writer.set_head].
  destruct (Write_healthy c h Hc) as (c1 & E1 & Hs1 & Hr1 & Hc1). rewrite E1.
  destruct (Z.eqb_spec (Len out) 0) as [Hz|Hnz].
  - exists c1. repeat split; auto.
    rewrite Hs1. unfold Len in Hz. unfold Get.
    destruct (OutData out); [rewrite app_nil_r; reflexivity|discriminate Hz].
  - destruct (Write_healthy c1 (Get out) Hc1) as (c2 & E2 & Hs2 & Hr2 & Hc2).
    rewrite E2. exists c2. repeat split; auto.
    + rewrite Hs2, Hs1, app_assoc. reflexivity.
    + congruence.
Qed.

Lemma reader_exists (n : Z) (o : ByteOrder) (w : Writer.PNWriter) :
  writer_for n o w -> exists r, reader_for n o r.
Proof.
  intros (w0 & Ew & _). pose proof (NewPNWriter_supported _ _ _ Ew) as Hn.
  widths Hn; eexists; eexists; (split; [reflexivity|split; reflexivity]).
Qed.

Lemma write_frame (n : Z) (o : ByteOrder) (w : Writer.PNWriter) (c : Conn)
    (out : OutBuffer) :
  writer_for n o w -> healthy c ->
  over_limit (Writer.MaxPacketSize w) (Len out) = false ->
  exists h c',
    Writer.WritePacket w c out = Ok (None, Writer.set_head w h, c')
    /\ length h = Z.to_nat n
    /\ sent c' = sent c ++ h ++ Get out
    /\ rd c' = rd c /\ healthy c'
    /\ forall r, reader_for n o r ->
                 Reader.decodeHead r h = Ok (to_int (Len out mod 2 ^ (8 * n))).
Proof.
  intros Hw Hc Hlim.
  destruct (reader_exists n o w Hw) as [r0 Hr0].
  destruct (encode_decode n o w r0 (Len out) Hw Hr0) as (h & Eh & Hlen & Hdec).
  destruct (write_frame_bytes w c out h Hc Hlim Eh) as (c' & E & Hs & Hrd & Hc').
  exists h, c'. repeat split; auto.
  intros r (r1 & Er & -> & _). destruct Hr0 as (r2 & Er2 & Ed & _).
  rewrite <- Hdec, Ed. congruence.
Qed.

Lemma read_frame (r : Reader.PNReader) (c : Conn) (inb : InBuffer)
    (h payload rest : list byte) :
  length h = length (Reader.head r) ->
  carries (rd c) (h ++ payload ++ rest) ->
  Reader.decodeHead r h = Ok (Z.of_nat (length payload)) ->
  over_limit (Reader.MaxPacketSize r) (Z.of_nat (length payload)) = false ->
  exists c',
    Reader.ReadPacket r c inb
    = Ok (None, Reader.set_head r h, c',
          match payload with
          | [] => inb
          | _ => mkIn payload (Z.of_nat (length payload) :: Prepared inb)
          end)
    /\ carries (rd c') rest
    /\ pending (rd c) = h ++ payload ++ pending (rd c').
Proof.
  intros Hlen Hc Hdec Hlim. unfold Reader.ReadPacket.
  destruct (ReadFull_carries c (Reader.head r) h (payload ++ rest) Hc (eq_sym Hlen))
    as (c1 & E1 & Hc1 & Hp1 & _).
  rewrite E1. cbn [bind Reader.head Reader.set_head Reader.decodeHead Reader.MaxPacketSize].
  rewrite Hdec. cbn [bind].
  destruct payload as [|b payload].
  - cbn [length Z.of_nat Z.eqb]. exists c1. auto.
  - set (L := Z.of_nat (length (b :: payload))) in *.
    assert (HL : 0 < L) by (subst L; cbn [length]; lia).
    replace (L =? 0) with false by (symmetry; apply Z.eqb_neq; lia).
    fold (over_limit (Reader.MaxPacketSize r) L). rewrite Hlim.
    unfold Prepare. replace (L <? 0) with false by (symmetry; apply Z.ltb_ge; lia).
    cbn [bind InGet InData].
    destruct (ReadFull_carries c1 (repeat Byte.x00 (Z.to_nat L)) (b :: payload) rest Hc1)
      as (c2 & E2 & Hc2 & Hp2 & _).
    { rewrite repeat_length. subst L. apply Nat2Z.id. }
    rewrite E2. cbn [bind fill Prepared]. exists c2. repeat split; auto.
    rewrite Hp1, Hp2. reflexivity.
Qed.

(** A writer stays a writer of its width and byte order over a call, and
    so does a reader: the statements below apply to every later call. *)
Lemma WritePacket_keeps_writer (n : Z) (o : ByteOrder) (w w' : Writer.PNWriter)
    (c c' : Conn) (out : OutBuffer) (e : option error) :
  writer_for n o w -> Writer.WritePacket w c out = Ok (e, w', c') ->
  writer_for n o w'.
Proof.
  intros Hw. destruct (reader_exists n o w Hw) as [r0 Hr0].
  destruct (encode_decode n o w r0 (Len out) Hw Hr0) as (h & Eh & Hlen & _).
  unfold Writer.WritePacket. rewrite Eh. cbn [bind Writer.head Writer.set_head].
  assert (Hset : writer_for n o (Writer.set_head w h)).
  { pose proof (writer_head_length n o w Hw) as Hl.
    destruct Hw as (w0 & E & Henc & Hlen0). exists w0.
    cbn [Writer.set_head Writer.encodeHead Writer.head]. repeat split; auto.
    congruence. }
  destruct ((0 <? Writer.MaxPacketSize w) && (Writer.MaxPacketSize w <? Len out)).
  { intros [= <- <- <-]. assumption. }
  destruct (Write c h) as [[k1 [e1|]] c1].
  { intros [= <- <- <-]. assumption. }
  destruct (Len out =? 0).
  { intros [= <- <- <-]. assumption. }
  destruct (Write c1 (Get out)) as [[k2 [e2|]] c2]; intros [= <- <- <-]; assumption.
Qed.

Lemma ReadPacket_keeps_reader (n : Z) (o : ByteOrder) (r r' : Reader.PNReader)
    (c c' : Conn) (inb inb' : InBuffer) (e : option error) :
  reader_for n o r -> Reader.ReadPacket r c inb = Ok (e, r', c', inb') ->
  reader_for n o r'.
Proof.
  intros Hr. unfold Reader.ReadPacket.
  destruct (ReadFull_result c (Reader.head r))
    as (h & k & err & c1 & E & Hlen & _).
  rewrite E. cbn [bind Reader.head Reader.set_head Reader.decodeHead Reader.MaxPacketSize].
  assert (Hset : reader_for n o (Reader.set_head r h)).
  { destruct Hr as (r0 & E0 & Hdec & Hlen0). exists r0.
    cbn [Reader.set_head Reader.decodeHead Reader.head]. repeat split; auto.
    congruence. }
  destruct err as [e1|]; [intros [= <- <- <- <-]; assumption|].
  destruct (Reader.decodeHead r h) as [size| |]; cbn [bind]; try discriminate.
  destruct (size =? 0); [intros [= <- <- <- <-]; assumption|].
  destruct ((0 <? Reader.MaxPacketSize r) && (Reader.MaxPacketSize r <? size));
    [intros [= <- <- <- <-]; assumption|].
  destruct (Prepare size inb) as [b1| |]; cbn [bind]; try discriminate.
  destruct (ReadFull c1 (InGet b1)) as [[[[d k2] [e2|]] c2]| |]; cbn [bind];
    try discriminate; intros [= <- <- <- <-]; assumption.
Qed.

(** ** Size limits and zero-length frames *)

Lemma Write_sent (c c' : Conn) (b : list byte) (k : nat) :
  Write c b = (k, None, c') -> sent c' = sent c ++ b /\ rd c' = rd c.
Proof.
  unfold Write. destruct (wr c) as [|[|m e] rest]; intros [= <- <-]; cbn; auto.
Qed.

Lemma over_limit_zero (m : Z) : over_limit m 0 = false.
Proof.
  unfold over_limit. destruct (Z.ltb_spec 0 m), (Z.ltb_spec m 0); cbn; auto; lia.
Qed.

Lemma over_limit_false (m size : Z) :
  m <= 0 \/ size <= m -> over_limit m size = false.
Proof.
  unfold over_limit. destruct (Z.ltb_spec 0 m), (Z.ltb_spec m size); cbn; auto; lia.
Qed.

Lemma encode_zero (n : Z) (o : ByteOrder) (w : Writer.PNWriter) :
  writer_for n o w ->
  Writer.encodeHead w 0 (Writer.head w) = Ok (repeat Byte.x00 (Z.to_nat n)).
Proof.
  intros (w0 & Ew & -> & Lw).
  pose proof (NewPNWriter_supported _ _ _ Ew) as Hn.
  widths Hn; built Ew; cbn [Writer.encodeHead];
    remember (Writer.head w) as hd eqn:Ehd; clear Ehd;
    cbn in Lw; explicit_list hd Lw; destruct o; reflexivity.
Qed.

(** C4.  With a limit [M > 0] and a payload longer than [M], [WritePacket]
    returns [PacketTooLargeError] and leaves the connection as it was: no
    byte is written. *)
Theorem write_over_limit_rejected (w : Writer.PNWriter) (conn : Conn)
    (out : OutBuffer) :
  0 < Writer.MaxPacketSize w -> Writer.MaxPacketSize w < Len out ->
  Writer.WritePacket w conn out = Ok (Some PacketTooLargeError, w, conn).
Proof.
  intros Hpos Hbig. unfold Writer.WritePacket.
  replace (0 <? Writer.MaxPacketSize w) with true by (symmetry; apply Z.ltb_lt; lia).
  replace (Writer.MaxPacketSize w <? Len out) with true
    by (symmetry; apply Z.ltb_lt; lia).
  reflexivity.
Qed.

Lemma write_over_limit_rejected_witness :
  exists w,
    Protocol.NewWriter (Protocol.mkPNProtocol 3 2 BigEndian tt) = Ok w
    /\ Writer.WritePacket w (mkConn [] [] []) hello
       = Ok (Some PacketTooLargeError, w, mkConn [] [] []).
Proof.
  eexists. split; [reflexivity|].
  apply (write_over_limit_rejected _ (mkConn [] [] []) hello); reflexivity.
Defined.

(** C6.  On a payload of length 0, [WritePacket] does one [Write], of the
    [n] header bytes (all zero), and nothing else: its result and the
    connection afterwards are those of that [Write].  When the [Write]
    succeeds, [WritePacket] returns [nil] and exactly the [n] header bytes
    have been put on the wire. *)
Theorem zero_length_frame_written (n : Z) (o : ByteOrder) (w : Writer.PNWriter)
    (conn : Conn) (out : OutBuffer) :
  writer_for n o w -> Len out = 0 ->
  exists k err conn',
    Write conn (repeat Byte.x00 (Z.to_nat n)) = (k, err, conn')
    /\ Writer.WritePacket w conn out
       = Ok (err, Writer.set_head w (repeat Byte.x00 (Z.to_nat n)), conn')
    /\ (err = None -> sent conn' = sent conn ++ repeat Byte.x00 (Z.to_nat n)).
Proof.
  intros Hw Hz. unfold Writer.WritePacket.
  fold (over_limit (Writer.MaxPacketSize w) (Len out)).
  rewrite Hz, over_limit_zero, (encode_zero n o w Hw).
  cbn [bind Writer.head Writer.set_head].
  destruct (Write conn (repeat Byte.x00 (Z.to_nat n))) as [[k err] conn'] eqn:E.
  exists k, err, conn'. split; [reflexivity|]. split.
  - destruct err; reflexivity.
  - intros ->. apply (Write_sent _ _ _ _ E).
Qed.

Lemma zero_length_frame_written_witness :
  exists w,
    Protocol.NewWriter (Protocol.mkPNProtocol 0 4 LittleEndian tt) = Ok w
    /\ exists k err conn',
        Write (mkConn [] [WrOk] [x2a]) (repeat Byte.x00 (Z.to_nat 4)) = (k, err, conn')
        /\ Writer.WritePacket w (mkConn [] [WrOk] [x2a]) empty
           = Ok (err, Writer.set_head w (repeat Byte.x00 (Z.to_nat 4)), conn')
        /\ (err = None -> sent conn' = sent (mkConn [] [WrOk] [x2a])
                                        ++ repeat Byte.x00 (Z.to_nat 4)).
Proof.
  eexists. split; [reflexivity|].
  apply (zero_length_frame_written 4 LittleEndian _ (mkConn [] [WrOk] [x2a]) empty).
  - eexists. split; [reflexivity|]. split; reflexivity.
  - reflexivity.
Defined.

(** C7.  When the header on the stream decodes to 0, [ReadPacket] returns
    [nil] with the caller's buffer exactly as it was, [Prepare] not called
    and nothing read into it; only the header has left the stream. *)
Theorem zero_length_frame_read (n : Z) (o : ByteOrder) (r : Reader.PNReader)
    (conn : Conn) (inb : InBuffer) (h rest : list byte) :
  reader_for n o r -> length h = Z.to_nat n ->
  carries (rd conn) (h ++ rest) ->
  Reader.decodeHead r h = Ok 0 ->
  exists conn',
    Reader.ReadPacket r conn inb = Ok (None, Reader.set_head r h, conn', inb)
    /\ pending (rd conn) = h ++ pending (rd conn')
    /\ carries (rd conn') rest.
Proof.
  intros Hr Hlen Hc Hdec.
  destruct (read_frame r conn inb h [] rest) as (conn' & E & Hc' & Hp); auto.
  - rewrite (reader_head_length n o r Hr). assumption.
  - apply over_limit_zero.
  - exists conn'. auto.
Qed.

Lemma zero_length_frame_read_witness :
  exists r,
    Protocol.NewReader (Protocol.mkPNProtocol 7 2 BigEndian tt) = Ok r
    /\ exists conn',
        Reader.ReadPacket r (mkConn [Rd [x00] None; Rd [x00; x01] None] [] [])
          (mkIn [x2a] [1])
        = Ok (None, Reader.set_head r [x00; x00], conn', mkIn [x2a] [1])
        /\ pending (rd (mkConn [Rd [x00] None; Rd [x00; x01] None] [] []))
           = [x00; x00] ++ pending (rd conn')
        /\ carries (rd conn') [x01].
Proof.
  eexists. split; [reflexivity|].
  apply (zero_length_frame_read 2 BigEndian _
           (mkConn [Rd [x00] None; Rd [x00; x01] None] [] []) (mkIn [x2a] [1])
           [x00; x00] [x01]).
  - eexists. split; [reflexivity|]. split; reflexivity.
  - reflexivity.
  - simpl. right. split; [reflexivity|]. exists [x00; x01]. split; [reflexivity|].
    left. exists []. reflexivity.
  - reflexivity.
Defined.

(** X12.  With a limit [M > 0], when the length [decodeHead] returns for
    the header on the stream, a Go [int], is greater than [M], [ReadPacket]
    returns [PacketTooLargeError]; exactly the header bytes have left the
    stream, what follows them is still there to be read, and the caller's
    buffer is as it was ([Prepare] not called).  For widths 1, 2 and 4 that
    length is the unsigned value of the header. *)
Theorem read_over_limit_rejected (n : Z) (o : ByteOrder) (r : Reader.PNReader)
    (conn : Conn) (inb : InBuffer) (h rest : list byte) (L : Z) :
  reader_for n o r -> 0 < Reader.MaxPacketSize r ->
  length h = Z.to_nat n ->
  carries (rd conn) (h ++ rest) ->
  Reader.decodeHead r h = Ok L -> Reader.MaxPacketSize r < L ->
  exists conn',
    Reader.ReadPacket r conn inb
    = Ok (Some PacketTooLargeError, Reader.set_head r h, conn', inb)
    /\ pending (rd conn) = h ++ pending (rd conn')
    /\ carries (rd conn') rest.
Proof.
  intros Hr Hpos Hlen Hc Hdec Hbig. unfold Reader.ReadPacket.
  destruct (ReadFull_carries conn (Reader.head r) h rest Hc) as (c1 & E1 & Hc1 & Hp1 & _).
  { rewrite (reader_head_length n o r Hr). auto. }
  rewrite E1.
  cbn [bind Reader.head Reader.set_head Reader.decodeHead Reader.MaxPacketSize].
  rewrite Hdec. cbn [bind].
  replace (L =? 0) with false by (symmetry; apply Z.eqb_neq; lia).
  replace (0 <? Reader.MaxPacketSize r) with true by (symmetry; apply Z.ltb_lt; lia).
  replace (Reader.MaxPacketSize r <? L) with true by (symmetry; apply Z.ltb_lt; lia).
  exists c1. auto.
Qed.

Lemma read_over_limit_rejected_witness :
  exists r,
    Protocol.NewReader (Protocol.mkPNProtocol 4 1 LittleEndian tt) = Ok r
    /\ exists conn',
        Reader.ReadPacket r (mkConn [Rd [x05; x68; x65] None] [] []) (mkIn [x2a] [1])
        = Ok (Some PacketTooLargeError, Reader.set_head r [x05], conn', mkIn [x2a] [1])
        /\ pending (rd (mkConn [Rd [x05; x68; x65] None] [] []))
           = [x05] ++ pending (rd conn')
        /\ carries (rd conn') [x68; x65].
Proof.
  eexists. split; [reflexivity|].
  apply (read_over_limit_rejected 1 LittleEndian _
           (mkConn [Rd [x05; x68; x65] None] [] []) (mkIn [x2a] [1])
           [x05] [x68; x65] 5).
  - eexists. split; [reflexivity|]. split; reflexivity.
  - reflexivity.
  - reflexivity.
  - simpl. left. exists []. reflexivity.
  - reflexivity.
  - reflexivity.
Defined.

(** ** Round trips *)

Lemma Len_range (out : OutBuffer) : 0 <= Len out <= MaxInt.
Proof.
  unfold Len. pose proof (OutData_fits out) as H. apply Z.leb_le in H. lia.
Qed.

Lemma NewWriter_for (BF : Type) (p : Protocol.PNProtocol BF) (w : Writer.PNWriter) :
  Protocol.NewWriter p = Ok w ->
  writer_for (Protocol.n p) (Protocol.bo p) w
  /\ Writer.MaxPacketSize w = Protocol.MaxPacketSize p.
Proof.
  unfold Protocol.NewWriter.
  destruct (Writer.NewPNWriter (Protocol.n p) (Protocol.bo p)) as [w0| |] eqn:E;
    cbn [bind]; intros [= <-].
  split; [|reflexivity]. exists w0. auto.
Qed.

Lemma NewReader_for (BF : Type) (p : Protocol.PNProtocol BF) (r : Reader.PNReader) :
  Protocol.NewReader p = Ok r ->
  reader_for (Protocol.n p) (Protocol.bo p) r
  /\ Reader.MaxPacketSize r = Protocol.MaxPacketSize p.
Proof.
  unfold Protocol.NewReader.
  destruct (Reader.NewPNReader (Protocol.n p) (Protocol.bo p)) as [r0| |] eqn:E;
    cbn [bind]; intros [= <-].
  split; [|reflexivity]. exists r0. auto.
Qed.

(** C1, as amended.  For a writer and a reader of the same width (1, 2, 4
    or 8), byte order and limit [M], a payload of length [L < 2^(8n)] that
    the limit admits ([M <= 0] or [L <= M]) and a connection that accepts
    the writes: [WritePacket] returns [nil] having put header and payload on
    the wire, and on any stream that delivers those bytes, in whatever
    fragments, [ReadPacket] returns [nil].  For [L > 0] the caller's buffer
    then holds exactly the payload; for [L = 0] it is left as it was. *)
Theorem round_trip (n : Z) (o : ByteOrder) (w : Writer.PNWriter)
    (r : Reader.PNReader) (cw : Conn) (out : OutBuffer) :
  writer_for n o w -> reader_for n o r ->
  Writer.MaxPacketSize w = Reader.MaxPacketSize r ->
  Len out < 2 ^ (8 * n) ->
  Writer.MaxPacketSize w <= 0 \/ Len out <= Writer.MaxPacketSize w ->
  healthy cw ->
  exists wire w' cw',
    Writer.WritePacket w cw out = Ok (None, w', cw')
    /\ sent cw' = sent cw ++ wire
    /\ length wire = (Z.to_nat n + length (Get out))%nat
    /\ forall (cr : Conn) (inb : InBuffer) (rest : list byte),
        carries (rd cr) (wire ++ rest) ->
        exists r' cr' inb',
          Reader.ReadPacket r cr inb = Ok (None, r', cr', inb')
          /\ carries (rd cr') rest
          /\ (Get out <> [] -> InData inb' = Get out)
          /\ (Get out = [] -> inb' = inb).
Proof.
  intros Hw Hr HM Hfit Hlim Hc.
  destruct (write_frame n o w cw out Hw Hc (over_limit_false _ _ Hlim))
    as (h & cw' & E & Hlen & Hsent & _ & _ & Hdec).
  exists (h ++ Get out), (Writer.set_head w h), cw'.
  split; [assumption|]. split; [assumption|].
  split; [rewrite length_app, Hlen; reflexivity|].
  intros cr inb rest Hcar.
  destruct (read_frame r cr inb h (Get out) rest) as (cr' & E' & Hc' & _).
  - rewrite (reader_head_length n o r Hr). assumption.
  - rewrite app_assoc. assumption.
  - rewrite (Hdec r Hr). f_equal. pose proof (Len_range out) as HL.
    rewrite Z.mod_small by lia. apply to_int_small.
    unfold MaxInt, Len in HL. unfold Get.
    change (2 ^ 63) with 9223372036854775808 in *. lia.
  - rewrite <- HM. apply over_limit_false. assumption.
  - eexists _, cr', _. split; [exact E'|]. split; [assumption|].
    destruct (Get out); split; intros H; try reflexivity; try discriminate H.
    contradiction.
Qed.

Lemma round_trip_witness :
  exists w r,
    Protocol.NewWriter (Protocol.mkPNProtocol 10 2 BigEndian tt) = Ok w
    /\ Protocol.NewReader (Protocol.mkPNProtocol 10 2 BigEndian tt) = Ok r
    /\ exists wire w' cw',
        Writer.WritePacket w (mkConn [] [] []) hello = Ok (None, w', cw')
        /\ sent cw' = sent (mkConn [] [] []) ++ wire
        /\ length wire = (Z.to_nat 2 + length (Get hello))%nat
        /\ forall (cr : Conn) (inb : InBuffer) (rest : list byte),
            carries (rd cr) (wire ++ rest) ->
            exists r' cr' inb',
              Reader.ReadPacket r cr inb = Ok (None, r', cr', inb')
              /\ carries (rd cr') rest
              /\ (Get hello <> [] -> InData inb' = Get hello)
              /\ (Get hello = [] -> inb' = inb).
Proof.
  eexists. eexists. split; [reflexivity|]. split; [reflexivity|].
  apply (round_trip 2 BigEndian _ _ (mkConn [] [] []) hello).
  - eexists. split; [reflexivity|]. split; reflexivity.
  - eexists. split; [reflexivity|]. split; reflexivity.
  - reflexivity.
  - reflexivity.
  - right. vm_compute. discriminate.
  - constructor.
Defined.

(** The claim C1 as it is stated fails where the limit excludes the payload
    (width 1, [M = 3], five bytes: the write is refused) and for an empty
    payload read into a buffer that is not empty (the buffer keeps its old
    byte). *)
Lemma round_trip_as_stated_fails :
  (exists w,
      Protocol.NewWriter (Protocol.mkPNProtocol 3 1 BigEndian tt) = Ok w
      /\ Len hello < 2 ^ (8 * 1)
      /\ Writer.WritePacket w (mkConn [] [] []) hello
         = Ok (Some PacketTooLargeError, w, mkConn [] [] []))
  /\ (exists w r w' r' cr',
         Protocol.NewWriter (Protocol.mkPNProtocol 0 1 BigEndian tt) = Ok w
         /\ Protocol.NewReader (Protocol.mkPNProtocol 0 1 BigEndian tt) = Ok r
         /\ Writer.WritePacket w (mkConn [] [] []) empty
            = Ok (None, w', mkConn [] [] [x00])
         /\ Reader.ReadPacket r (mkConn [Rd [x00] None] [] []) (mkIn [x2a] [1])
            = Ok (None, r', cr', mkIn [x2a] [1])
         /\ InData (mkIn [x2a] [1]) <> Get empty).
Proof.
  split.
  - eexists. split; [reflexivity|]. split; reflexivity.
  - eexists _, _, _, _, _. split; [reflexivity|]. split; [reflexivity|].
    split; [reflexivity|]. split; [reflexivity|]. discriminate.
Qed.

(** C5.  Width 2, big-endian, no limit: [WritePacket] on "hello" puts
    exactly [00 05 68 65 6C 6C 6F] on the wire, and a reader of the same
    configuration, given a stream that delivers those bytes, produces a
    buffer of exactly the five payload bytes. *)
Theorem hello_scenario (cw cr : Conn) (inb : InBuffer) :
  healthy cw ->
  carries (rd cr) [x00; x05; x68; x65; x6c; x6c; x6f] ->
  exists p w r w' cw' r' cr' inb',
    Protocol.PacketN 2 BigEndian tt = Ok p
    /\ Protocol.MaxPacketSize p = 0
    /\ Protocol.NewWriter p = Ok w
    /\ Protocol.NewReader p = Ok r
    /\ Writer.WritePacket w cw hello = Ok (None, w', cw')
    /\ sent cw' = sent cw ++ [x00; x05; x68; x65; x6c; x6c; x6f]
    /\ Reader.ReadPacket r cr inb = Ok (None, r', cr', inb')
    /\ InData inb' = [x68; x65; x6c; x6c; x6f].
Proof.
  intros Hc Hcar.
  set (w := Writer.mkPNWriter 0 [x00; x00]
              (fun size head => PutUint16 BigEndian head (to_uint16 size))).
  set (r := Reader.mkPNReader 0 [x00; x00]
              (fun head => v <- Uint16 BigEndian head ;; Ok (to_int v))).
  destruct (write_frame_bytes w cw hello [x00; x05] Hc eq_refl eq_refl)
    as (cw' & Ew & Hs & _).
  destruct (read_frame r cr inb [x00; x05] [x68; x65; x6c; x6c; x6f] [])
    as (cr' & Er & _); try reflexivity; [exact Hcar|].
  exists (Protocol.mkPNProtocol 0 2 BigEndian tt), w, r.
  eexists _, cw', _, cr', _.
  repeat (split; [reflexivity|]).
  split; [exact Ew|]. split; [exact Hs|]. split; [exact Er|]. reflexivity.
Qed.

Lemma hello_scenario_witness :
  exists p w r w' cw' r' cr' inb',
    Protocol.PacketN 2 BigEndian tt = Ok p
    /\ Protocol.MaxPacketSize p = 0
    /\ Protocol.NewWriter p = Ok w
    /\ Protocol.NewReader p = Ok r
    /\ Writer.WritePacket w (mkConn [] [] []) hello = Ok (None, w', cw')
    /\ sent cw' = sent (mkConn [] [] []) ++ [x00; x05; x68; x65; x6c; x6c; x6f]
    /\ Reader.ReadPacket r
         (mkConn [Rd [x00] None; Rd [x05; x68; x65] None; Rd [x6c; x6c; x6f; x00] None]
            [] [])
         (mkIn [x2a] [1])
       = Ok (None, r', cr', inb')
    /\ InData inb' = [x68; x65; x6c; x6c; x6f].
Proof.
  apply (hello_scenario (mkConn [] [] [])
           (mkConn [Rd [x00] None; Rd [x05; x68; x65] None; Rd [x6c; x6c; x6f; x00] None]
              [] [])
           (mkIn [x2a] [1])).
  - constructor.
  - simpl. right. split; [reflexivity|]. eexists. split; [reflexivity|].
    right. split; [reflexivity|]. eexists. split; [reflexivity|].
    left. exists [x00]. reflexivity.
Defined.

(** ** Lengths beyond the header's range *)

(** C9.  For widths 1, 2 and 4 and no limit, a payload of length
    [L >= 2^(8n)] is not refused: [WritePacket] returns [nil], the header
    it writes decodes to [L mod 2^(8n)], which is not [L], and all [L]
    payload bytes follow it on the wire. *)
Theorem length_truncated_silently (n : Z) (o : ByteOrder) (w : Writer.PNWriter)
    (conn : Conn) (out : OutBuffer) :
  writer_for n o w -> In n [1; 2; 4] ->
  Writer.MaxPacketSize w = 0 ->
  2 ^ (8 * n) <= Len out ->
  healthy conn ->
  exists h w' conn',
    Writer.WritePacket w conn out = Ok (None, w', conn')
    /\ sent conn' = sent conn ++ h ++ Get out
    /\ length h = Z.to_nat n
    /\ (forall r, reader_for n o r ->
                  Reader.decodeHead r h = Ok (Len out mod 2 ^ (8 * n)))
    /\ Len out mod 2 ^ (8 * n) <> Len out.
Proof.
  intros Hw Hn HM Hbig Hc.
  destruct (write_frame n o w conn out Hw Hc) as (h & c' & E & Hlen & Hs & _ & _ & Hdec).
  { rewrite HM. reflexivity. }
  assert (Hpow : 0 < 2 ^ (8 * n) <= 2 ^ 32).
  { cbn [In] in Hn. destruct Hn as [<-|[<-|[<-|[]]]]; split; reflexivity || discriminate. }
  pose proof (Z.mod_pos_bound (Len out) (2 ^ (8 * n)) (proj1 Hpow)) as Hmod.
  exists h, (Writer.set_head w h), c'. repeat split; auto.
  - intros r Hr. rewrite (Hdec r Hr). f_equal. apply to_int_small.
    change (2 ^ 63) with 9223372036854775808.
    change (2 ^ 32) with 4294967296 in Hpow. lia.
  - lia.
Qed.

Lemma length_truncated_silently_witness :
  exists w,
    Protocol.NewWriter (Protocol.mkPNProtocol 0 1 BigEndian tt) = Ok w
    /\ exists h w' conn',
        Writer.WritePacket w (mkConn [] [] []) payload300 = Ok (None, w', conn')
        /\ sent conn' = sent (mkConn [] [] []) ++ h ++ Get payload300
        /\ length h = Z.to_nat 1
        /\ (forall r, reader_for 1 BigEndian r ->
                      Reader.decodeHead r h = Ok (Len payload300 mod 2 ^ (8 * 1)))
        /\ Len payload300 mod 2 ^ (8 * 1) <> Len payload300.
Proof.
  eexists. split; [reflexivity|].
  apply (length_truncated_silently 1 BigEndian _ (mkConn [] [] []) payload300).
  - eexists. split; [reflexivity|]. split; reflexivity.
  - simpl. left. reflexivity.
  - reflexivity.
  - vm_compute. discriminate.
  - constructor.
Defined.

(** ** Construction *)

(** C10.  For width 1 the byte order plays no part: the writers and the
    readers constructed for the two byte orders are the same, closures
    included, so they write and read alike on every connection and
    buffer. *)
Theorem width_one_ignores_byte_order (BF : Type) (m : Z) (bf : BF)
    (o1 o2 : ByteOrder) (cw cr : Conn) (out : OutBuffer) (inb : InBuffer) :
  Writer.NewPNWriter 1 o1 = Writer.NewPNWriter 1 o2
  /\ Reader.NewPNReader 1 o1 = Reader.NewPNReader 1 o2
  /\ Protocol.NewWriter (Protocol.mkPNProtocol m 1 o1 bf)
     = Protocol.NewWriter (Protocol.mkPNProtocol m 1 o2 bf)
  /\ Protocol.NewReader (Protocol.mkPNProtocol m 1 o1 bf)
     = Protocol.NewReader (Protocol.mkPNProtocol m 1 o2 bf)
  /\ (w <- Protocol.NewWriter (Protocol.mkPNProtocol m 1 o1 bf) ;;
      Writer.WritePacket w cw out)
     = (w <- Protocol.NewWriter (Protocol.mkPNProtocol m 1 o2 bf) ;;
        Writer.WritePacket w cw out)
  /\ (r <- Protocol.NewReader (Protocol.mkPNProtocol m 1 o1 bf) ;;
      Reader.ReadPacket r cr inb)
     = (r <- Protocol.NewReader (Protocol.mkPNProtocol m 1 o2 bf) ;;
        Reader.ReadPacket r cr inb).
Proof.
  assert (Hw : Writer.NewPNWriter 1 o1 = Writer.NewPNWriter 1 o2) by reflexivity.
  assert (Hr : Reader.NewPNReader 1 o1 = Reader.NewPNReader 1 o2) by reflexivity.
  unfold Protocol.NewWriter, Protocol.NewReader.
  cbn [Protocol.n Protocol.bo Protocol.MaxPacketSize].
  rewrite Hw, Hr. repeat split.
Qed.

(** The claim C2 as it is stated fails: [PacketN] checks nothing, so a
    descriptor of width 3 is constructed. *)
Lemma descriptor_accepts_any_width :
  ~ supported 3
  /\ Protocol.PacketN 3 BigEndian tt = Ok (Protocol.mkPNProtocol 0 3 BigEndian tt).
Proof.
  split; [|reflexivity].
  unfold supported. cbn [In]. intros [H|[H|[H|[H|[]]]]]; discriminate H.
Qed.

(** C2, as amended.  A width outside {1,2,4,8} is accepted by [PacketN]
    and rejected, with a panic, whenever a writer or a reader is
    constructed, by [NewPNWriter] and [NewPNReader] and so by the
    descriptor's [NewWriter] and [NewReader]; hence no writer and no reader
    of such a width exists for [WritePacket] or [ReadPacket] to be called
    on. *)
Theorem unsupported_width_rejected (BF : Type) (n : Z) (o : ByteOrder) (bf : BF) :
  ~ supported n ->
  (exists p, Protocol.PacketN n o bf = Ok p
             /\ (exists msg, Protocol.NewWriter p = Panic msg)
             /\ (exists msg, Protocol.NewReader p = Panic msg))
  /\ (exists msg, Writer.NewPNWriter n o = Panic msg)
  /\ (exists msg, Reader.NewPNReader n o = Panic msg)
  /\ (forall w, ~ writer_for n o w)
  /\ (forall r, ~ reader_for n o r).
Proof.
  intros Hn.
  destruct (NewPNWriter_unsupported n o Hn) as [mw Ew].
  destruct (NewPNReader_unsupported n o Hn) as [mr Er].
  split; [|split; [eauto|split; [eauto|split]]].
  - eexists. split; [reflexivity|].
    unfold Protocol.NewWriter, Protocol.NewReader.
    cbn [Protocol.n Protocol.bo]. rewrite Ew, Er. cbn [bind]. eauto.
  - intros w (w0 & E & _). congruence.
  - intros r (r0 & E & _). congruence.
Qed.

Lemma unsupported_width_rejected_witness :
  (exists p, Protocol.PacketN 3 LittleEndian tt = Ok p
             /\ (exists msg, Protocol.NewWriter p = Panic msg)
             /\ (exists msg, Protocol.NewReader p = Panic msg))
  /\ (exists msg, Writer.NewPNWriter 3 LittleEndian = Panic msg)
  /\ (exists msg, Reader.NewPNReader 3 LittleEndian = Panic msg)
  /\ (forall w, ~ writer_for 3 LittleEndian w)
  /\ (forall r, ~ reader_for 3 LittleEndian r).
Proof.
  apply (unsupported_width_rejected unit 3 LittleEndian tt).
  unfold supported. simpl. intros [H|[H|[H|[H|[]]]]]; discriminate H.
Defined.

(** ** Transport errors *)

(** The claim C8 as it is stated fails on the reading side.  A peer that
    closes the stream after one byte of a two-byte header makes the
    connection report [EOF], and [ReadPacket] return [ErrUnexpectedEOF];
    an error reported together with the last byte of the header is not
    returned at all. *)
Lemma read_error_not_passed_as_is :
  (exists r c1,
      Protocol.NewReader (Protocol.mkPNProtocol 0 2 BigEndian tt) = Ok r
      /\ Read (mkConn [Rd [x05] None] [] []) 2 = ([x05], None, c1)
      /\ Read c1 1 = ([], Some EOF, c1)
      /\ Reader.ReadPacket r (mkConn [Rd [x05] None] [] []) (mkIn [] [])
         = Ok (Some ErrUnexpectedEOF, Reader.set_head r [x05; x00], c1, mkIn [] [])
      /\ ErrUnexpectedEOF <> EOF)
  /\ (exists r c1,
         Protocol.NewReader (Protocol.mkPNProtocol 0 2 BigEndian tt) = Ok r
         /\ Read (mkConn [Rd [x00; x00] (Some (NetError 7))] [] []) 2
            = ([x00; x00], Some (NetError 7), c1)
         /\ Reader.ReadPacket r (mkConn [Rd [x00; x00] (Some (NetError 7))] [] [])
              (mkIn [] [])
            = Ok (None, Reader.set_head r [x00; x00], c1, mkIn [] [])).
Proof.
  split.
  - eexists _, _. split; [reflexivity|]. split; [reflexivity|].
    split; [reflexivity|]. split; [reflexivity|]. discriminate.
  - eexists _, _. split; [reflexivity|]. split; reflexivity.
Qed.

(** The error [ReadAtLeast]'s loop ends on is the error of the last [Read]
    of a run of reads that starts where the loop starts. *)
Lemma ReadAtLeast_loop_failure (fuel : nat) :
  forall (c c' : Conn) (buf buf' : list byte) (min n k : nat) (e : error),
    ReadAtLeast_loop fuel c buf min n None = Ok (buf', k, Some e, c') ->
    length buf = min -> (n <= min)%nat ->
    exists c1 n1 bs,
      read_run min c n c1 n1
      /\ Read c1 (min - n1) = (bs, Some e, c')
      /\ k = (n1 + length bs)%nat.
Proof.
  induction fuel as [|fuel IH]; intros c c' buf buf' min n k e E Hbuf Hn;
    cbn [ReadAtLeast_loop is_nil] in E; rewrite andb_true_r in E;
    destruct (Nat.ltb_spec n min) as [Hlt|Hge]; try discriminate E.
  destruct (Read c (length buf - n)) as [[bs e2] c2] eqn:ER.
  pose proof (Read_effect _ _ _ _ _ ER) as (Hlen & _).
  rewrite Hbuf in ER.
  destruct e2 as [e2|].
  - rewrite ReadAtLeast_loop_exit_err in E. injection E as <- <- <- <-.
    exists c, n, bs. split; [constructor|]. auto.
  - destruct (Nat.lt_ge_cases (n + length bs) min) as [Hshort|Hfull].
    + destruct (IH _ _ _ _ _ _ _ _ E) as (c1 & n1 & bs1 & Hrun & HR & Hk).
      * rewrite length_store_at; lia.
      * lia.
      * exists c1, n1, bs1. split; [|auto].
        apply (run_more min c c2 c1 n n1 bs ER Hshort Hrun).
    + rewrite ReadAtLeast_loop_exit in E by assumption. discriminate E.
Qed.

(** And every such run ends the loop on the error of its last [Read]. *)
Lemma ReadAtLeast_loop_run (min : nat) (c c1 : Conn) (n n1 : nat) :
  read_run min c n c1 n1 ->
  forall (fuel : nat) (buf bs : list byte) (e : error) (c' : Conn),
    Read c1 (min - n1) = (bs, Some e, c') ->
    length buf = min -> (n1 < min)%nat -> (n <= min)%nat ->
    (length (rd c) < fuel)%nat ->
    exists buf',
      ReadAtLeast_loop fuel c buf min n None = Ok (buf', (n1 + length bs)%nat, Some e, c').
Proof.
  induction 1 as [c n|c c2 c1 n n1 bs0 ER Hshort Hrun IH];
    intros fuel buf bs e c' HR Hbuf Hn1 Hn Hf;
    (destruct fuel as [|fuel]; [lia|]); cbn [ReadAtLeast_loop is_nil];
    rewrite andb_true_r.
  - replace ((n <? min)%nat) with true by (symmetry; apply Nat.ltb_lt; lia).
    rewrite Hbuf, HR, ReadAtLeast_loop_exit_err. eauto.
  - replace ((n <? min)%nat) with true by (symmetry; apply Nat.ltb_lt; lia).
    rewrite Hbuf, ER.
    pose proof (Read_effect _ _ _ _ _ ER) as (Hlen & _ & _ & _ & Hprog).
    apply IH; auto.
    + rewrite length_store_at; lia.
    + lia.
    + destruct Hprog as [Hdec|[[Hfull _]|(Hx & _)]]; [lia|lia|discriminate Hx].
Qed.

Lemma ReadFull_failure (c c' : Conn) (buf buf' : list byte) (k : nat) (e : error) :
  ReadFull c buf = Ok (buf', k, Some e, c') ->
  exists c1 n1 bs e1,
    read_run (length buf) c 0 c1 n1
    /\ Read c1 (length buf - n1) = (bs, Some e1, c')
    /\ k = (n1 + length bs)%nat /\ (k < length buf)%nat
    /\ e = reported k e1.
Proof.
  unfold ReadFull, ReadAtLeast. rewrite Nat.ltb_irrefl.
  destruct (ReadAtLeast_loop (S (length (rd c))) c buf (length buf) 0 None)
    as [[[[b1 k1] err1] c1]| |] eqn:E; cbn [bind]; try discriminate.
  destruct (Nat.leb_spec (length buf) k1) as [Hge|Hlt]; [discriminate|].
  destruct err1 as [e1|].
  2:{ rewrite andb_false_r. discriminate. }
  destruct (ReadAtLeast_loop_failure _ _ _ _ _ _ _ _ _ E eq_refl (Nat.le_0_l _))
    as (c2 & n2 & bs & Hrun & HR & Hk).
  intros H. exists c2, n2, bs, e1.
  assert (Hres : k = k1 /\ c' = c1 /\ e = reported k1 e1).
  { unfold reported. destruct ((0 <? k1)%nat && is_EOF (Some e1));
      injection H as <- <- <- <-; auto. }
  destruct Hres as (-> & -> & ->). subst k1. auto.
Qed.

Lemma ReadFull_run (c c1 c' : Conn) (buf bs : list byte) (n1 : nat) (e1 : error) :
  read_run (length buf) c 0 c1 n1 ->
  Read c1 (length buf - n1) = (bs, Some e1, c') ->
  (n1 + length bs < length buf)%nat ->
  exists buf',
    ReadFull c buf
    = Ok (buf', (n1 + length bs)%nat, Some (reported (n1 + length bs) e1), c').
Proof.
  intros Hrun HR Hshort. unfold ReadFull, ReadAtLeast. rewrite Nat.ltb_irrefl.
  destruct (ReadAtLeast_loop_run _ _ _ _ _ Hrun (S (length (rd c))) buf bs e1 c' HR)
    as (buf' & E); auto; try lia.
  rewrite E. cbn [bind].
  replace ((length buf <=? n1 + length bs)%nat) with false
    by (symmetry; apply Nat.leb_gt; lia).
  exists buf'. unfold reported.
  destruct ((0 <? n1 + length bs)%nat && is_EOF (Some e1)); reflexivity.
Qed.

(** C8, as amended.  [WritePacket] returns the error of a failing header or
    payload [Write] as it is, the connection left as that [Write] left it:
    nothing is written after a failure.  [ReadPacket] returns the error of
    a failing [ReadFull] of the header or of the payload as it is, the
    connection likewise.  And [ReadFull] fails exactly when one of its
    [Read]s of the connection, in the run that starts with its first,
    reports an error while the buffer is still short: it then returns that
    error, with no [Read] after it, except that [EOF] after some of the
    bytes is returned as [ErrUnexpectedEOF]. *)
Theorem transport_errors_passed_on (w : Writer.PNWriter) (r : Reader.PNReader)
    (cw cr : Conn) (out : OutBuffer) (inb : InBuffer) :
  (forall h k e c1,
      Writer.MaxPacketSize w <= 0 \/ Len out <= Writer.MaxPacketSize w ->
      Writer.encodeHead w (Len out) (Writer.head w) = Ok h ->
      Write cw h = (k, Some e, c1) ->
      Writer.WritePacket w cw out = Ok (Some e, Writer.set_head w h, c1))
  /\ (forall h k c1 k' err c2,
         Writer.MaxPacketSize w <= 0 \/ Len out <= Writer.MaxPacketSize w ->
         Writer.encodeHead w (Len out) (Writer.head w) = Ok h ->
         Write cw h = (k, None, c1) ->
         Len out <> 0 ->
         Write c1 (Get out) = (k', err, c2) ->
         Writer.WritePacket w cw out = Ok (err, Writer.set_head w h, c2))
  /\ (forall h k e c1,
         ReadFull cr (Reader.head r) = Ok (h, k, Some e, c1) ->
         Reader.ReadPacket r cr inb = Ok (Some e, Reader.set_head r h, c1, inb))
  /\ (forall h k c1 L d k' err c2,
         ReadFull cr (Reader.head r) = Ok (h, k, None, c1) ->
         Reader.decodeHead r h = Ok L -> 0 < L ->
         Reader.MaxPacketSize r <= 0 \/ L <= Reader.MaxPacketSize r ->
         ReadFull c1 (repeat x00 (Z.to_nat L)) = Ok (d, k', err, c2) ->
         Reader.ReadPacket r cr inb
         = Ok (err, Reader.set_head r h, c2, mkIn d (L :: Prepared inb)))
  /\ (forall c buf buf' k e c',
         ReadFull c buf = Ok (buf', k, Some e, c') ->
         exists c1 n1 bs e1,
           read_run (length buf) c 0 c1 n1
           /\ Read c1 (length buf - n1) = (bs, Some e1, c')
           /\ k = (n1 + length bs)%nat /\ (k < length buf)%nat
           /\ e = (if (0 <? k)%nat && is_EOF (Some e1) then ErrUnexpectedEOF else e1))
  /\ (forall c buf c1 n1 bs e1 c',
         read_run (length buf) c 0 c1 n1 ->
         Read c1 (length buf - n1) = (bs, Some e1, c') ->
         (n1 + length bs < length buf)%nat ->
         exists buf',
           ReadFull c buf
           = Ok (buf', (n1 + length bs)%nat,
                 Some (if (0 <? n1 + length bs)%nat && is_EOF (Some e1)
                       then ErrUnexpectedEOF else e1),
                 c')).
Proof.
  split; [|split; [|split; [|split; [|split]]]].
  - intros h k e c1 Hlim Eh Ew. unfold Writer.WritePacket.
    fold (over_limit (Writer.MaxPacketSize w) (Len out)).
    rewrite (over_limit_false _ _ Hlim), Eh.
    cbn [bind Writer.head Writer.set_head]. rewrite Ew. reflexivity.
  - intros h k c1 k' err c2 Hlim Eh Ew Hnz Ep. unfold Writer.WritePacket.
    fold (over_limit (Writer.MaxPacketSize w) (Len out)).
    rewrite (over_limit_false _ _ Hlim), Eh.
    cbn [bind Writer.head Writer.set_head]. rewrite Ew.
    replace (Len out =? 0) with false by (symmetry; apply Z.eqb_neq; assumption).
    rewrite Ep. destruct err; reflexivity.
  - intros h k e c1 E. unfold Reader.ReadPacket. rewrite E. reflexivity.
  - intros h k c1 L d k' err c2 E Hdec HL Hlim Ep. unfold Reader.ReadPacket.
    rewrite E.
    cbn [bind Reader.head Reader.set_head Reader.decodeHead Reader.MaxPacketSize].
    rewrite Hdec. cbn [bind].
    replace (L =? 0) with false by (symmetry; apply Z.eqb_neq; lia).
    fold (over_limit (Reader.MaxPacketSize r) L).
    rewrite (over_limit_false _ _ Hlim). unfold Prepare.
    replace (L <? 0) with false by (symmetry; apply Z.ltb_ge; lia).
    cbn [bind InGet InData]. rewrite Ep. cbn [bind fill Prepared].
    destruct err; reflexivity.
  - intros c buf buf' k e c' E. apply (ReadFull_failure c c' buf buf' k e E).
  - intros c buf c1 n1 bs e1 c' Hrun HR Hshort.
    apply (ReadFull_run c c1 c' buf bs n1 e1 Hrun HR Hshort).
Qed.

Lemma transport_errors_passed_on_witness :
  exists w,
    Protocol.NewWriter (Protocol.mkPNProtocol 0 2 BigEndian tt) = Ok w
    /\ Writer.WritePacket w (mkConn [] [WrOk; WrFail 3 (NetError 7)] []) hello
       = Ok (Some (NetError 7), Writer.set_head w [x00; x05],
             mkConn [] [] [x00; x05; x68; x65; x6c]).
Proof.
  eexists. split; [reflexivity|].
  apply (proj1 (proj2 (transport_errors_passed_on _
                         (Reader.mkPNReader 0 [] (fun _ => Ok 0))
                         (mkConn [] [WrOk; WrFail 3 (NetError 7)] [])
                         (mkConn [] [] []) hello (mkIn [] [])))
           [x00; x05] 2%nat (mkConn [] [WrFail 3 (NetError 7)] [x00; x05])
           3%nat (Some (NetError 7)) (mkConn [] [] [x00; x05; x68; x65; x6c])).
  - left. reflexivity.
  - reflexivity.
  - reflexivity.
  - vm_compute. discriminate.
  - reflexivity.
Defined.

(** * Further properties of the code *)

(** ** The header codec, the other way round *)

Lemma to_byte_eq (x : Z) (b : byte) : x mod 2 ^ 8 = of_byte b -> to_byte x = b.
Proof.
  intros H. unfold to_byte. rewrite H. unfold of_byte.
  rewrite N2Z.id, Byte.of_to_N. reflexivity.
Qed.

Lemma to_byte_digit (v k : Z) (b : byte) :
  0 <= k -> (v / 2 ^ k) mod 2 ^ 8 = of_byte b -> to_byte (Z.shiftr v k) = b.
Proof.
  intros Hk H. apply to_byte_eq. rewrite Z.shiftr_div_pow2 by assumption. exact H.
Qed.

Lemma to_byte_digit0 (v : Z) (b : byte) :
  v mod 2 ^ 8 = of_byte b -> to_byte v = b.
Proof. apply to_byte_eq. Qed.

Lemma to_uint64_to_int (v : Z) : 0 <= v < 2 ^ 64 -> to_uint64 (to_int v) = v.
Proof.
  intros Hv. unfold to_uint64, to_int.
  change (2 ^ 63) with 9223372036854775808. pow2_consts.
  Z.div_mod_to_equations. lia.
Qed.

Ltac solve_digit :=
  first [apply to_byte_digit; [lia|] | apply to_byte_eq];
  pow2_consts; Z.div_mod_to_equations; lia.

Lemma digits16_of (b0 b1 : byte) (v : Z) :
  v = of_byte b0 + of_byte b1 * 2 ^ 8 ->
  digits16 v = [b0; b1].
Proof.
  intros ->. pose proof (of_byte_range b0). pose proof (of_byte_range b1).
  unfold digits16.
  f_equal; [solve_digit|]. f_equal. solve_digit.
Qed.

Lemma digits32_of (b0 b1 b2 b3 : byte) (v : Z) :
  v = of_byte b0 + of_byte b1 * 2 ^ 8 + of_byte b2 * 2 ^ 16 + of_byte b3 * 2 ^ 24 ->
  digits32 v = [b0; b1; b2; b3].
Proof.
  intros ->. pose proof (of_byte_range b0). pose proof (of_byte_range b1).
  pose proof (of_byte_range b2). pose proof (of_byte_range b3).
  unfold digits32, digits16. cbn [app].
  repeat (f_equal; [solve_digit|]). f_equal. solve_digit.
Qed.

Lemma digits64_of (b0 b1 b2 b3 b4 b5 b6 b7 : byte) (v : Z) :
  v = of_byte b0 + of_byte b1 * 2 ^ 8 + of_byte b2 * 2 ^ 16 + of_byte b3 * 2 ^ 24
      + of_byte b4 * 2 ^ 32 + of_byte b5 * 2 ^ 40 + of_byte b6 * 2 ^ 48
      + of_byte b7 * 2 ^ 56 ->
  digits64 v = [b0; b1; b2; b3; b4; b5; b6; b7].
Proof.
  intros ->. pose proof (of_byte_range b0). pose proof (of_byte_range b1).
  pose proof (of_byte_range b2). pose proof (of_byte_range b3).
  pose proof (of_byte_range b4). pose proof (of_byte_range b5).
  pose proof (of_byte_range b6). pose proof (of_byte_range b7).
  unfold digits64, digits32, digits16. cbn [app].
  repeat (f_equal; [solve_digit|]). f_equal. solve_digit.
Qed.

Lemma Uint16_bytes (o : ByteOrder) (b0 b1 : byte) :
  Uint16 o (ordered o [b0; b1]) = Ok (of_byte b0 + of_byte b1 * 2 ^ 8).
Proof.
  pose proof (of_byte_range b0). pose proof (of_byte_range b1).
  destruct o; cbv [Uint16 index nth_error bind ordered rev app]; f_equal;
    join_digits; reflexivity.
Qed.

Lemma Uint32_bytes (o : ByteOrder) (b0 b1 b2 b3 : byte) :
  Uint32 o (ordered o [b0; b1; b2; b3])
  = Ok (of_byte b0 + of_byte b1 * 2 ^ 8 + of_byte b2 * 2 ^ 16 + of_byte b3 * 2 ^ 24).
Proof.
  pose proof (of_byte_range b0). pose proof (of_byte_range b1).
  pose proof (of_byte_range b2). pose proof (of_byte_range b3).
  destruct o; cbv [Uint32 index nth_error bind ordered rev app]; f_equal;
    join_digits; reflexivity.
Qed.

Lemma Uint64_bytes (o : ByteOrder) (b0 b1 b2 b3 b4 b5 b6 b7 : byte) :
  Uint64 o (ordered o [b0; b1; b2; b3; b4; b5; b6; b7])
  = Ok (of_byte b0 + of_byte b1 * 2 ^ 8 + of_byte b2 * 2 ^ 16 + of_byte b3 * 2 ^ 24
        + of_byte b4 * 2 ^ 32 + of_byte b5 * 2 ^ 40 + of_byte b6 * 2 ^ 48
        + of_byte b7 * 2 ^ 56).
Proof.
  pose proof (of_byte_range b0). pose proof (of_byte_range b1).
  pose proof (of_byte_range b2). pose proof (of_byte_range b3).
  pose proof (of_byte_range b4). pose proof (of_byte_range b5).
  pose proof (of_byte_range b6). pose proof (of_byte_range b7).
  destruct o; cbv [Uint64 index nth_error bind ordered rev app]; f_equal;
    join_digits; reflexivity.
Qed.

Lemma reorder2 (o : ByteOrder) (x y : byte) :
  exists c0 c1, [x; y] = ordered o [c0; c1].
Proof. destruct o; [exists y, x|exists x, y]; reflexivity. Qed.

Lemma reorder4 (o : ByteOrder) (x y z t : byte) :
  exists c0 c1 c2 c3, [x; y; z; t] = ordered o [c0; c1; c2; c3].
Proof. destruct o; [exists t, z, y, x|exists x, y, z, t]; reflexivity. Qed.

Lemma reorder8 (o : ByteOrder) (x y z t x' y' z' t' : byte) :
  exists c0 c1 c2 c3 c4 c5 c6 c7,
    [x; y; z; t; x'; y'; z'; t'] = ordered o [c0; c1; c2; c3; c4; c5; c6; c7].
Proof.
  destruct o; [exists t', z', y', x', t, z, y, x|exists x, y, z, t, x', y', z', t'];
    reflexivity.
Qed.

Ltac byte_ranges :=
  repeat match goal with
    | b : byte |- _ =>
        lazymatch goal with
        | _ : 0 <= of_byte b < 2 ^ 8 |- _ => fail
        | _ => pose proof (of_byte_range b)
        end
    end.

Ltac in_int_range :=
  pow2_consts; change (2 ^ 63) with 9223372036854775808; lia.

Ltac writer_head w Hw :=
  let Hl := fresh "Hl" in
  let Ew := fresh "Ew" in
  let w0 := fresh "w0" in
  let hd := fresh "hd" in
  let Ehd := fresh "Ehd" in
  pose proof (writer_head_length _ _ _ Hw) as Hl;
  destruct Hw as (w0 & Ew & -> & _); built Ew; cbn [Writer.encodeHead];
  remember (Writer.head w) as hd eqn:Ehd; clear Ehd; cbn in Hl; explicit_list hd Hl.

(** Every [n]-byte header is the encoding of the length it decodes to. *)
Lemma decode_value (n : Z) (o : ByteOrder) (r : Reader.PNReader) (h : list byte) :
  reader_for n o r -> length h = Z.to_nat n ->
  exists v, 0 <= v < 2 ^ (8 * n)
            /\ Reader.decodeHead r h = Ok (to_int v)
            /\ forall w, writer_for n o w ->
                         Writer.encodeHead w (to_int v) (Writer.head w) = Ok h.
Proof.
  intros (r0 & Er & -> & _) Hlen.
  pose proof (NewPNReader_supported _ _ _ Er) as Hn.
  widths Hn; built Er; cbn [Reader.decodeHead]; cbn in Hlen; explicit_list h Hlen.
  - byte_ranges. exists (of_byte b). split; [assumption|]. split; [reflexivity|].
    intros w Hw. writer_head w Hw.
    cbv [store length Nat.ltb Nat.leb firstn skipn app]. do 2 f_equal.
    apply to_byte_eq. rewrite to_int_small by in_int_range.
    apply Z.mod_small. assumption.
  - destruct (reorder2 o b b0) as (c0 & c1 & ->). clear b b0. byte_ranges.
    rewrite Uint16_bytes. cbn [bind].
    exists (of_byte c0 + of_byte c1 * 2 ^ 8).
    split; [change (2 ^ (8 * 2)) with 65536; pow2_consts; lia|].
    split; [reflexivity|].
    intros w Hw. writer_head w Hw.
    rewrite PutUint16_bytes, to_int_small by in_int_range.
    unfold to_uint16. rewrite Z.mod_small by (pow2_consts; lia).
    rewrite (digits16_of c0 c1 _ eq_refl). reflexivity.
  - destruct (reorder4 o b b0 b1 b2) as (c0 & c1 & c2 & c3 & ->).
    clear b b0 b1 b2. byte_ranges.
    rewrite Uint32_bytes. cbn [bind].
    exists (of_byte c0 + of_byte c1 * 2 ^ 8 + of_byte c2 * 2 ^ 16 + of_byte c3 * 2 ^ 24).
    split; [change (2 ^ (8 * 4)) with 4294967296; pow2_consts; lia|].
    split; [reflexivity|].
    intros w Hw. writer_head w Hw.
    rewrite PutUint32_bytes, to_int_small by in_int_range.
    unfold to_uint32. rewrite Z.mod_small by (pow2_consts; lia).
    rewrite (digits32_of c0 c1 c2 c3 _ eq_refl). reflexivity.
  - destruct (reorder8 o b b0 b1 b2 b3 b4 b5 b6)
      as (c0 & c1 & c2 & c3 & c4 & c5 & c6 & c7 & ->).
    clear b b0 b1 b2 b3 b4 b5 b6. byte_ranges.
    rewrite Uint64_bytes. cbn [bind].
    exists (of_byte c0 + of_byte c1 * 2 ^ 8 + of_byte c2 * 2 ^ 16 + of_byte c3 * 2 ^ 24
            + of_byte c4 * 2 ^ 32 + of_byte c5 * 2 ^ 40 + of_byte c6 * 2 ^ 48
            + of_byte c7 * 2 ^ 56).
    split; [change (2 ^ (8 * 8)) with 18446744073709551616; pow2_consts; lia|].
    split; [reflexivity|].
    intros w Hw. writer_head w Hw.
    rewrite PutUint64_bytes, to_uint64_to_int by (pow2_consts; lia).
    rewrite (digits64_of c0 c1 c2 c3 c4 c5 c6 c7 _ eq_refl). reflexivity.
Qed.

Lemma to_int_range (x : Z) : - 2 ^ 63 <= to_int x < 2 ^ 63.
Proof.
  unfold to_int. change (2 ^ 63) with 9223372036854775808. pow2_consts.
  Z.div_mod_to_equations. lia.
Qed.

(** X1.  Decoding is the inverse of encoding on headers: every header of
    [n] bytes decodes, without a panic, to a length whose encoding is that
    very header. *)
Theorem header_decodes_to_its_length (n : Z) (o : ByteOrder)
    (w : Writer.PNWriter) (r : Reader.PNReader) (h : list byte) :
  writer_for n o w -> reader_for n o r -> length h = Z.to_nat n ->
  exists L, Reader.decodeHead r h = Ok L
            /\ Writer.encodeHead w L (Writer.head w) = Ok h.
Proof.
  intros Hw Hr Hlen.
  destruct (decode_value n o r h Hr Hlen) as (v & _ & Hdec & Henc).
  exists (to_int v). auto.
Qed.

Lemma header_decodes_to_its_length_witness :
  exists w r,
    Protocol.NewWriter (Protocol.mkPNProtocol 0 4 BigEndian tt) = Ok w
    /\ Protocol.NewReader (Protocol.mkPNProtocol 0 4 BigEndian tt) = Ok r
    /\ exists L, Reader.decodeHead r [x01; x02; x03; xff] = Ok L
                 /\ Writer.encodeHead w L (Writer.head w) = Ok [x01; x02; x03; xff].
Proof.
  eexists. eexists. split; [reflexivity|]. split; [reflexivity|].
  apply (header_decodes_to_its_length 4 BigEndian _ _ [x01; x02; x03; xff]).
  - eexists. split; [reflexivity|]. split; reflexivity.
  - eexists. split; [reflexivity|]. split; reflexivity.
  - reflexivity.
Defined.

(** X2.  Two different headers of [n] bytes never decode to the same
    length. *)
Theorem decodeHead_injective (n : Z) (o : ByteOrder) (r : Reader.PNReader)
    (h1 h2 : list byte) :
  reader_for n o r -> length h1 = Z.to_nat n -> length h2 = Z.to_nat n ->
  Reader.decodeHead r h1 = Reader.decodeHead r h2 -> h1 = h2.
Proof.
  intros Hr H1 H2 E.
  assert (Hw : exists w, writer_for n o w).
  { destruct Hr as (r0 & Er & _). pose proof (NewPNReader_supported _ _ _ Er) as Hn.
    widths Hn; eexists; eexists; (split; [reflexivity|split; reflexivity]). }
  destruct Hw as [w Hw].
  destruct (decode_value n o r h1 Hr H1) as (v1 & _ & D1 & E1).
  destruct (decode_value n o r h2 Hr H2) as (v2 & _ & D2 & E2).
  rewrite D1, D2 in E. injection E as E.
  specialize (E1 w Hw). specialize (E2 w Hw). rewrite E in E1. congruence.
Qed.

Lemma decodeHead_injective_witness : [x05; x00] = [x05; x00].
Proof.
  apply (decodeHead_injective 2 LittleEndian
           (Reader.mkPNReader 0 [x00; x00]
              (fun head => v <- Uint16 LittleEndian head ;; Ok (to_int v)))
           [x05; x00] [x05; x00]).
  - eexists. split; [reflexivity|]. split; reflexivity.
  - reflexivity.
  - reflexivity.
  - reflexivity.
Defined.

Lemma decoded_size (n : Z) (o : ByteOrder) (r : Reader.PNReader) (h : list byte) :
  reader_for n o r -> length h = Z.to_nat n ->
  exists L, Reader.decodeHead r h = Ok L /\ (n <> 8 -> 0 <= L < 2 ^ (8 * n)).
Proof.
  intros Hr Hlen.
  destruct (decode_value n o r h Hr Hlen) as (v & Hv & Hdec & _).
  exists (to_int v). split; [assumption|]. intros Hn8.
  assert (Hsmall : 2 ^ (8 * n) <= 2 ^ 32).
  { destruct Hr as (r0 & Er & _). pose proof (NewPNReader_supported _ _ _ Er) as Hn.
    unfold supported in Hn. cbn [In] in Hn.
    destruct Hn as [<-|[<-|[<-|[<-|[]]]]]; try discriminate; congruence. }
  rewrite to_int_small; [assumption|].
  change (2 ^ 63) with 9223372036854775808.
  change (2 ^ 32) with 4294967296 in Hsmall. lia.
Qed.

(** X3.  The length a reader decodes from an [n]-byte header: for widths
    1, 2 and 4 it lies in [0, 2^(8n)); for width 8 it is a 64-bit signed
    integer, so it can be negative. *)
Theorem decoded_length_range (n : Z) (o : ByteOrder) (r : Reader.PNReader)
    (h : list byte) :
  reader_for n o r -> length h = Z.to_nat n ->
  exists L, Reader.decodeHead r h = Ok L
            /\ - 2 ^ 63 <= L < 2 ^ 63
            /\ (n <> 8 -> 0 <= L < 2 ^ (8 * n)).
Proof.
  intros Hr Hlen.
  destruct (decoded_size n o r h Hr Hlen) as (L & Hdec & HL).
  exists L. split; [assumption|]. split; [|assumption].
  destruct (decode_value n o r h Hr Hlen) as (v & _ & Hdec' & _).
  rewrite Hdec in Hdec'. injection Hdec' as ->. apply to_int_range.
Qed.

Lemma decoded_length_range_witness :
  exists r,
    Protocol.NewReader (Protocol.mkPNProtocol 0 8 BigEndian tt) = Ok r
    /\ Reader.decodeHead r [xff; xff; xff; xff; xff; xff; xff; xff] = Ok (-1)
    /\ exists L, Reader.decodeHead r [xff; xff; xff; xff; xff; xff; xff; xff] = Ok L
                 /\ - 2 ^ 63 <= L < 2 ^ 63
                 /\ (8 <> 8 -> 0 <= L < 2 ^ (8 * 8)).
Proof.
  eexists. split; [reflexivity|]. split; [reflexivity|].
  apply (decoded_length_range 8 BigEndian _ [xff; xff; xff; xff; xff; xff; xff; xff]).
  - eexists. split; [reflexivity|]. split; reflexivity.
  - reflexivity.
Defined.

(** X4.  The byte orders differ by a reversal: the header a big-endian
    writer encodes for a length is the little-endian one read backwards. *)
Theorem big_endian_reverses_little_endian (n : Z) (wb wl : Writer.PNWriter)
    (size : Z) (hb hl : list byte) :
  writer_for n BigEndian wb -> writer_for n LittleEndian wl ->
  Writer.encodeHead wb size (Writer.head wb) = Ok hb ->
  Writer.encodeHead wl size (Writer.head wl) = Ok hl ->
  hb = rev hl.
Proof.
  intros Hb Hl.
  pose proof (writer_head_length _ _ _ Hb) as Lb.
  pose proof (writer_head_length _ _ _ Hl) as Ll.
  destruct Hb as (b0 & Eb & -> & _). destruct Hl as (l0 & El & -> & _).
  pose proof (NewPNWriter_supported _ _ _ Eb) as Hn.
  remember (Writer.head wb) as xb eqn:Exb; clear Exb.
  remember (Writer.head wl) as xl eqn:Exl; clear Exl.
  widths Hn; built Eb; built El; cbn [Writer.encodeHead];
    cbn in Lb, Ll; explicit_list xb Lb; explicit_list xl Ll.
  - cbv [store length Nat.ltb Nat.leb firstn skipn app]. intros [= <-] [= <-].
    reflexivity.
  - rewrite !PutUint16_bytes. intros [= <-] [= <-]. reflexivity.
  - rewrite !PutUint32_bytes. intros [= <-] [= <-]. reflexivity.
  - rewrite !PutUint64_bytes. intros [= <-] [= <-]. reflexivity.
Qed.

Lemma big_endian_reverses_little_endian_witness :
  [x00; x01; x02; x03] = rev [x03; x02; x01; x00].
Proof.
  apply (big_endian_reverses_little_endian 4
           (Writer.mkPNWriter 0 [x00; x00; x00; x00]
              (fun size head => PutUint32 BigEndian head (to_uint32 size)))
           (Writer.mkPNWriter 7 [x01; x01; x01; x01]
              (fun size head => PutUint32 LittleEndian head (to_uint32 size)))
           66051 [x00; x01; x02; x03] [x03; x02; x01; x00]).
  - eexists. split; [reflexivity|]. split; reflexivity.
  - eexists. split; [reflexivity|]. split; reflexivity.
  - reflexivity.
  - reflexivity.
Defined.

(** ** What a call takes from the stream *)

Lemma skipn_store_at (buf bs : list byte) (n m : nat) :
  (n + length bs <= m)%nat -> (n + length bs <= length buf)%nat ->
  skipn m (store_at buf n bs) = skipn m buf.
Proof.
  intros Hm Hlen. unfold store_at. rewrite app_assoc.
  rewrite skipn_app.
  assert (Hl : length (firstn n buf ++ bs) = (n + length bs)%nat)
    by (rewrite length_app, length_firstn; lia).
  rewrite Hl, skipn_all2 by lia. cbn [app].
  rewrite skipn_skipn. f_equal. lia.
Qed.

Lemma Read_clean (c c' : Conn) (k : nat) (bs : list byte) (e : option error) :
  Read c k = (bs, e, c') -> clean (rd c) -> clean (rd c').
Proof.
  unfold Read, clean. destruct (rd c) as [|[d err] rest] eqn:E.
  - intros [= <- <- <-] _. rewrite E. constructor.
  - destruct (length d <=? k)%nat; intros [= <- <- <-] H; cbn;
      inversion H as [|? ? Hd Hrest]; subst; auto.
Qed.

(** The bytes the loop takes off the stream are the bytes it stores in the
    buffer, from offset [n] on, and no others. *)
Lemma ReadAtLeast_loop_consumes (fuel : nat) :
  forall (c c' : Conn) (buf buf' : list byte) (min n n' : nat)
         (err err' : option error),
    ReadAtLeast_loop fuel c buf min n err = Ok (buf', n', err', c') ->
    (n <= length buf)%nat ->
    exists bs,
      pending (rd c) = bs ++ pending (rd c')
      /\ n' = (n + length bs)%nat /\ (n' <= length buf)%nat
      /\ buf' = firstn n buf ++ bs ++ skipn n' buf
      /\ (clean (rd c) -> clean (rd c')).
Proof.
  induction fuel as [|fuel IH]; intros c c' buf buf' min n n' err err' E Hn;
    cbn [ReadAtLeast_loop] in E;
    destruct ((n <? min)%nat && is_nil err) eqn:Econd; try discriminate E.
  - injection E as <- <- <- <-. exists []. rewrite Nat.add_0_r. cbn [app length].
    rewrite firstn_skipn. auto.
  - destruct (Read c (length buf - n)) as [[bs1 e1] c1] eqn:ER.
    pose proof (Read_effect _ _ _ _ _ ER) as (Hlen & Hp & _).
    destruct (IH _ _ _ _ _ _ _ _ _ E) as (bs2 & Hp2 & Hn2 & Hle & Hbuf & Hcl).
    { rewrite length_store_at; lia. }
    rewrite length_store_at in Hle by lia.
    exists (bs1 ++ bs2). rewrite length_app.
    split; [rewrite Hp, Hp2, app_assoc; reflexivity|].
    split; [lia|]. split; [assumption|]. split.
    + rewrite Hbuf, firstn_store_at, skipn_store_at by lia.
      rewrite <- !app_assoc. reflexivity.
    + intros H. apply Hcl. apply (Read_clean _ _ _ _ _ ER H).
  - injection E as <- <- <- <-. exists []. rewrite Nat.add_0_r. cbn [app length].
    rewrite firstn_skipn. auto.
Qed.

Lemma ReadFull_consumes (c c' : Conn) (buf buf' : list byte) (k : nat)
    (err : option error) :
  ReadFull c buf = Ok (buf', k, err, c') ->
  exists bs,
    pending (rd c) = bs ++ pending (rd c')
    /\ length bs = k /\ (k <= length buf)%nat
    /\ buf' = bs ++ skipn k buf
    /\ (clean (rd c) -> clean (rd c')).
Proof.
  unfold ReadFull, ReadAtLeast. rewrite Nat.ltb_irrefl.
  destruct (ReadAtLeast_loop (S (length (rd c))) c buf (length buf) 0 None)
    as [[[[b1 n1] e1] c1]| |] eqn:E; cbn [bind]; try discriminate.
  destruct (ReadAtLeast_loop_consumes _ _ _ _ _ _ _ _ _ _ E (Nat.le_0_l _))
    as (bs & Hp & Hn & Hle & Hbuf & Hcl).
  cbn [firstn app Nat.add] in Hbuf, Hn.
  intros H. exists bs.
  destruct (length buf <=? n1)%nat; [|destruct ((0 <? n1)%nat && is_EOF e1)];
    injection H as <- <- <- <-; subst n1; auto.
Qed.

(** ** Construction, again *)

(** X5.  The descriptor's [NewWriter] and [NewReader] succeed exactly for
    the widths 1, 2, 4 and 8; what they return carries the descriptor's
    limit and a scratch header of [n] zero bytes. *)
Theorem constructors_succeed_on_supported (BF : Type) (p : Protocol.PNProtocol BF) :
  (supported (Protocol.n p) <-> exists w, Protocol.NewWriter p = Ok w)
  /\ (supported (Protocol.n p) <-> exists r, Protocol.NewReader p = Ok r)
  /\ (forall w, Protocol.NewWriter p = Ok w ->
                Writer.MaxPacketSize w = Protocol.MaxPacketSize p
                /\ Writer.head w = repeat x00 (Z.to_nat (Protocol.n p)))
  /\ (forall r, Protocol.NewReader p = Ok r ->
                Reader.MaxPacketSize r = Protocol.MaxPacketSize p
                /\ Reader.head r = repeat x00 (Z.to_nat (Protocol.n p))).
Proof.
  destruct p as [m n o bf]. unfold Protocol.NewWriter, Protocol.NewReader.
  cbn [Protocol.n Protocol.bo Protocol.MaxPacketSize].
  split; [|split; [|split]].
  - split.
    + intros Hn. widths Hn; eexists; reflexivity.
    + intros [w E]. destruct (Writer.NewPNWriter n o) as [w0| |] eqn:E0;
        try discriminate E. apply (NewPNWriter_supported _ _ _ E0).
  - split.
    + intros Hn. widths Hn; eexists; reflexivity.
    + intros [r E]. destruct (Reader.NewPNReader n o) as [r0| |] eqn:E0;
        try discriminate E. apply (NewPNReader_supported _ _ _ E0).
  - intros w E. destruct (Writer.NewPNWriter n o) as [w0| |] eqn:E0;
      try discriminate E. cbn [bind] in E. injection E as <-.
    pose proof (NewPNWriter_supported _ _ _ E0) as Hn.
    widths Hn; built E0; split; reflexivity.
  - intros r E. destruct (Reader.NewPNReader n o) as [r0| |] eqn:E0;
      try discriminate E. cbn [bind] in E. injection E as <-.
    pose proof (NewPNReader_supported _ _ _ E0) as Hn.
    widths Hn; built E0; split; reflexivity.
Qed.

(** ** What a call does to the connection *)

Lemma Write_effect (c c' : Conn) (b : list byte) (k : nat) (e : option error) :
  Write c b = (k, e, c') ->
  rd c' = rd c
  /\ exists bs tail, sent c' = sent c ++ bs /\ b = bs ++ tail /\ (e = None -> bs = b).
Proof.
  unfold Write. destruct (wr c) as [|[|m err] rest]; intros [= <- <- <-]; cbn;
    (split; [reflexivity|]).
  - exists b, []. rewrite app_nil_r. auto.
  - exists b, []. rewrite app_nil_r. auto.
  - exists (firstn m b), (skipn m b). rewrite firstn_skipn.
    repeat split; auto. discriminate.
Qed.

(** X6.  [WritePacket] on a constructed writer always returns, without a
    panic; the writer remains one of its width and byte order; the reading
    side of the connection is not touched; and what goes on the wire is a
    prefix of the frame (header, then payload), the whole frame when the
    call returns [nil]. *)
Theorem WritePacket_writes_a_prefix_of_the_frame (n : Z) (o : ByteOrder)
    (w : Writer.PNWriter) (conn : Conn) (out : OutBuffer) :
  writer_for n o w ->
  exists h err w' conn' bs tail,
    Writer.encodeHead w (Len out) (Writer.head w) = Ok h
    /\ length h = Z.to_nat n
    /\ Writer.WritePacket w conn out = Ok (err, w', conn')
    /\ writer_for n o w'
    /\ rd conn' = rd conn
    /\ sent conn' = sent conn ++ bs
    /\ h ++ Get out = bs ++ tail
    /\ (err = None -> bs = h ++ Get out).
Proof.
  intros Hw. destruct (reader_exists n o w Hw) as [r0 Hr0].
  destruct (encode_decode n o w r0 (Len out) Hw Hr0) as (h & Eh & Hlen & _).
  assert (Hret : exists err w' conn' bs tail,
             Writer.WritePacket w conn out = Ok (err, w', conn')
             /\ rd conn' = rd conn /\ sent conn' = sent conn ++ bs
             /\ h ++ Get out = bs ++ tail
             /\ (err = None -> bs = h ++ Get out)).
  { unfold Writer.WritePacket. rewrite Eh.
    cbn [bind Writer.head Writer.set_head].
    destruct ((0 <? Writer.MaxPacketSize w) && (Writer.MaxPacketSize w <? Len out)).
    { exists (Some PacketTooLargeError), w, conn, [], (h ++ Get out).
      rewrite app_nil_r. repeat split; auto. discriminate. }
    destruct (Write conn h) as [[k1 e1] c1] eqn:E1.
    destruct (Write_effect _ _ _ _ _ E1) as (Hr1 & bs1 & t1 & Hs1 & Hb1 & Hok1).
    destruct e1 as [e1|].
    { exists (Some e1), (Writer.set_head w h), c1, bs1, (t1 ++ Get out).
      rewrite app_assoc, <- Hb1. repeat split; auto. discriminate. }
    specialize (Hok1 eq_refl). subst bs1.
    destruct (Z.eqb_spec (Len out) 0) as [Hz|Hnz].
    { assert (Hg : Get out = []).
      { unfold Len in Hz. unfold Get. destruct (OutData out); [reflexivity|discriminate Hz]. }
      exists None, (Writer.set_head w h), c1, h, []. rewrite Hg, app_nil_r.
      repeat split; auto. }
    destruct (Write c1 (Get out)) as [[k2 e2] c2] eqn:E2.
    destruct (Write_effect _ _ _ _ _ E2) as (Hr2 & bs2 & t2 & Hs2 & Hb2 & Hok2).
    exists e2, (Writer.set_head w h), c2, (h ++ bs2), t2.
    split; [destruct e2; reflexivity|]. split; [congruence|].
    split; [rewrite Hs2, Hs1, app_assoc; reflexivity|].
    split; [rewrite <- app_assoc, <- Hb2; reflexivity|].
    intros He. rewrite (Hok2 He). reflexivity. }
  destruct Hret as (err & w' & conn' & bs & tail & E & Hrd & Hs & Hpre & Hall).
  exists h, err, w', conn', bs, tail. repeat split; auto.
  apply (WritePacket_keeps_writer n o w w' conn conn' out err Hw E).
Qed.

Lemma WritePacket_writes_a_prefix_of_the_frame_witness :
  exists w,
    Protocol.NewWriter (Protocol.mkPNProtocol 0 2 BigEndian tt) = Ok w
    /\ exists h err w' conn' bs tail,
        Writer.encodeHead w (Len hello) (Writer.head w) = Ok h
        /\ length h = Z.to_nat 2
        /\ Writer.WritePacket w (mkConn [] [WrOk; WrFail 3 (NetError 7)] []) hello
           = Ok (err, w', conn')
        /\ writer_for 2 BigEndian w'
        /\ rd conn' = rd (mkConn [] [WrOk; WrFail 3 (NetError 7)] [])
        /\ sent conn' = sent (mkConn [] [WrOk; WrFail 3 (NetError 7)] []) ++ bs
        /\ h ++ Get hello = bs ++ tail
        /\ (err = None -> bs = h ++ Get hello).
Proof.
  eexists. split; [reflexivity|].
  apply (WritePacket_writes_a_prefix_of_the_frame 2 BigEndian _
           (mkConn [] [WrOk; WrFail 3 (NetError 7)] []) hello).
  eexists. split; [reflexivity|]. split; reflexivity.
Defined.

Lemma firstn_prefix (A : Type) (l l' : list A) : firstn (length l) (l ++ l') = l.
Proof. apply firstn_exact. reflexivity. Qed.

(** On the scripted connections of this model, whose stream comes to an
    end, [ReadPacket] on a reader of width 1, 2 or 4 returns, with the
    effects listed. *)
Lemma ReadPacket_on_script (n : Z) (o : ByteOrder) (r : Reader.PNReader)
    (conn : Conn) (inb : InBuffer) :
  reader_for n o r -> n <> 8 ->
  exists err r' conn' inb' hb pb,
    Reader.ReadPacket r conn inb = Ok (err, r', conn', inb')
    /\ reader_for n o r'
    /\ wr conn' = wr conn /\ sent conn' = sent conn
    /\ pending (rd conn) = hb ++ pb ++ pending (rd conn')
    /\ firstn (length hb) (Reader.head r') = hb
    /\ (pb = [] \/ firstn (length pb) (InData inb') = pb).
Proof.
  intros Hr Hn8.
  assert (Hret : exists err r' conn' inb' hb pb,
             Reader.ReadPacket r conn inb = Ok (err, r', conn', inb')
             /\ wr conn' = wr conn /\ sent conn' = sent conn
             /\ pending (rd conn) = hb ++ pb ++ pending (rd conn')
             /\ firstn (length hb) (Reader.head r') = hb
             /\ (pb = [] \/ firstn (length pb) (InData inb') = pb)).
  { unfold Reader.ReadPacket.
    destruct (ReadFull_result conn (Reader.head r))
      as (h & k & err & c1 & E & Hlen & Hw1 & Hs1 & _).
    destruct (ReadFull_consumes _ _ _ _ _ _ E) as (hb & Hp1 & _ & _ & Hh & _).
    rewrite E.
    cbn [bind Reader.head Reader.set_head Reader.decodeHead Reader.MaxPacketSize].
    assert (Hfront : firstn (length hb) h = hb) by (rewrite Hh; apply firstn_prefix).
    destruct err as [e1|].
    { exists (Some e1), (Reader.set_head r h), c1, inb, hb, [].
      cbn [app Reader.set_head Reader.head]. repeat split; auto. }
    destruct (decoded_size n o r h Hr) as (L & Hdec & HL).
    { rewrite Hlen. apply (reader_head_length n o r Hr). }
    specialize (HL Hn8). rewrite Hdec. cbn [bind].
    destruct (L =? 0).
    { exists None, (Reader.set_head r h), c1, inb, hb, [].
      cbn [app Reader.set_head Reader.head]. repeat split; auto. }
    destruct ((0 <? Reader.MaxPacketSize r) && (Reader.MaxPacketSize r <? L)).
    { exists (Some PacketTooLargeError), (Reader.set_head r h), c1, inb, hb, [].
      cbn [app Reader.set_head Reader.head]. repeat split; auto. }
    unfold Prepare. replace (L <? 0) with false by (symmetry; apply Z.ltb_ge; lia).
    cbn [bind InGet InData].
    destruct (ReadFull_result c1 (repeat x00 (Z.to_nat L)))
      as (d & k2 & err2 & c2 & E2 & _ & Hw2 & Hs2 & _).
    destruct (ReadFull_consumes _ _ _ _ _ _ E2) as (pb & Hp2 & _ & _ & Hd & _).
    rewrite E2. cbn [bind fill Prepared].
    exists err2, (Reader.set_head r h), c2,
      (mkIn d (L :: Prepared inb)), hb, pb.
    cbn [Reader.set_head Reader.head InData].
    split; [destruct err2; reflexivity|]. split; [congruence|]. split; [congruence|].
    split; [rewrite Hp1, Hp2; reflexivity|]. split; [assumption|].
    right. rewrite Hd. apply firstn_prefix. }
  destruct Hret as (err & r' & conn' & inb' & hb & pb & E & H).
  exists err, r', conn', inb', hb, pb. split; [assumption|].
  split; [|assumption].
  apply (ReadPacket_keeps_reader n o r r' conn conn' inb inb' err Hr E).
Qed.

(** X7.  [ReadPacket] on a constructed reader of width 1, 2 or 4 never
    panics: no index is out of range and [Prepare] is never given a
    negative size.  And whenever it returns, the reader is still one of its
    width and byte order, nothing has been written to the connection, and
    the bytes taken off the stream are the ones now at the front of the
    scratch header and of the caller's buffer, in that order, none
    dropped. *)
Theorem ReadPacket_only_reads (n : Z) (o : ByteOrder) (r : Reader.PNReader)
    (conn : Conn) (inb : InBuffer) :
  reader_for n o r -> n <> 8 ->
  (forall msg, Reader.ReadPacket r conn inb <> Panic msg)
  /\ forall err r' conn' inb',
      Reader.ReadPacket r conn inb = Ok (err, r', conn', inb') ->
      reader_for n o r'
      /\ wr conn' = wr conn /\ sent conn' = sent conn
      /\ exists hb pb,
          pending (rd conn) = hb ++ pb ++ pending (rd conn')
          /\ firstn (length hb) (Reader.head r') = hb
          /\ (pb = [] \/ firstn (length pb) (InData inb') = pb).
Proof.
  intros Hr Hn8.
  destruct (ReadPacket_on_script n o r conn inb Hr Hn8)
    as (err0 & r0 & c0 & i0 & hb & pb & E & Hr0 & Hw & Hs & Hp & Hh & Hb).
  split.
  - intros msg Hpanic. rewrite E in Hpanic. discriminate Hpanic.
  - intros err r' conn' inb' E'. rewrite E in E'. injection E' as <- <- <- <-.
    repeat split; auto. exists hb, pb. auto.
Qed.

Lemma ReadPacket_only_reads_witness :
  exists r,
    Protocol.NewReader (Protocol.mkPNProtocol 0 2 BigEndian tt) = Ok r
    /\ (forall msg,
          Reader.ReadPacket r
            (mkConn [Rd [x00; x03; x61] None; Rd [x62] (Some (NetError 7))] [WrOk] [x2a])
            (mkIn [] [])
          <> Panic msg)
    /\ forall err r' conn' inb',
        Reader.ReadPacket r
          (mkConn [Rd [x00; x03; x61] None; Rd [x62] (Some (NetError 7))] [WrOk] [x2a])
          (mkIn [] [])
        = Ok (err, r', conn', inb') ->
        reader_for 2 BigEndian r'
        /\ wr conn' = [WrOk] /\ sent conn' = [x2a]
        /\ exists hb pb,
            pending [Rd [x00; x03; x61] None; Rd [x62] (Some (NetError 7))]
            = hb ++ pb ++ pending (rd conn')
            /\ firstn (length hb) (Reader.head r') = hb
            /\ (pb = [] \/ firstn (length pb) (InData inb') = pb).
Proof.
  eexists. split; [reflexivity|].
  apply (ReadPacket_only_reads 2 BigEndian _
           (mkConn [Rd [x00; x03; x61] None; Rd [x62] (Some (NetError 7))] [WrOk] [x2a])
           (mkIn [] [])).
  - eexists. split; [reflexivity|]. split; reflexivity.
  - discriminate.
Defined.

(** ** Frames on a stream *)

(** X8.  Short reads: when the stream delivers a header and the payload it
    announces, in whatever fragments, [ReadPacket] returns [nil]; it takes
    exactly header and payload off the stream, leaving what follows; and
    the caller's buffer is prepared once, for the payload's length, and
    holds the payload (it is untouched when the payload is empty). *)
Theorem frame_read_in_fragments (n : Z) (o : ByteOrder) (r : Reader.PNReader)
    (conn : Conn) (inb : InBuffer) (h payload rest : list byte) :
  reader_for n o r -> length h = Z.to_nat n ->
  carries (rd conn) (h ++ payload ++ rest) ->
  Reader.decodeHead r h = Ok (Z.of_nat (length payload)) ->
  Reader.MaxPacketSize r <= 0 \/ Z.of_nat (length payload) <= Reader.MaxPacketSize r ->
  exists conn',
    Reader.ReadPacket r conn inb
    = Ok (None, Reader.set_head r h, conn', received inb payload)
    /\ pending (rd conn) = h ++ payload ++ pending (rd conn')
    /\ carries (rd conn') rest.
Proof.
  intros Hr Hlen Hc Hdec Hlim.
  destruct (read_frame r conn inb h payload rest) as (conn' & E & Hc' & Hp); auto.
  - rewrite (reader_head_length n o r Hr). assumption.
  - apply over_limit_false. assumption.
  - exists conn'. auto.
Qed.

Lemma frame_read_in_fragments_witness :
  exists r,
    Protocol.NewReader (Protocol.mkPNProtocol 3 1 BigEndian tt) = Ok r
    /\ exists conn',
        Reader.ReadPacket r
          (mkConn [Rd [] None; Rd [x03; x61] None; Rd [x62] None;
                   Rd [x63; x01; x64] (Some EOF)] [] [])
          (mkIn [x2a] [1])
        = Ok (None, Reader.set_head r [x03], conn',
              received (mkIn [x2a] [1]) [x61; x62; x63])
        /\ pending (rd (mkConn [Rd [] None; Rd [x03; x61] None; Rd [x62] None;
                               Rd [x63; x01; x64] (Some EOF)] [] []))
           = [x03] ++ [x61; x62; x63] ++ pending (rd conn')
        /\ carries (rd conn') [x01; x64].
Proof.
  eexists. split; [reflexivity|].
  apply (frame_read_in_fragments 1 BigEndian _
           (mkConn [Rd [] None; Rd [x03; x61] None; Rd [x62] None;
                    Rd [x63; x01; x64] (Some EOF)] [] [])
           (mkIn [x2a] [1]) [x03] [x61; x62; x63] [x01; x64]).
  - eexists. split; [reflexivity|]. split; reflexivity.
  - reflexivity.
  - simpl. right. split; [reflexivity|]. eexists. split; [reflexivity|].
    right. split; [reflexivity|]. eexists. split; [reflexivity|].
    right. split; [reflexivity|]. eexists. split; [reflexivity|].
    left. exists []. reflexivity.
  - reflexivity.
  - right. simpl. lia.
Defined.

Lemma in_range_decodes (n : Z) (out : OutBuffer) :
  Len out < 2 ^ (8 * n) ->
  to_int (Len out mod 2 ^ (8 * n)) = Z.of_nat (length (Get out)).
Proof.
  intros Hfit. pose proof (Len_range out) as HL.
  rewrite Z.mod_small by lia. unfold MaxInt in HL.
  rewrite to_int_small by (change (2 ^ 63) with 9223372036854775808 in *; lia).
  reflexivity.
Qed.

(** X9.  Frames keep their boundaries and their order: two payloads
    written one after the other with the same writer are read back, by two
    calls of [ReadPacket] with one reader, as the first and then the
    second, whatever the fragments the stream delivers them in. *)
Theorem two_frames_keep_their_order (n : Z) (o : ByteOrder) (w : Writer.PNWriter)
    (r : Reader.PNReader) (cw : Conn) (out1 out2 : OutBuffer) :
  writer_for n o w -> reader_for n o r ->
  Writer.MaxPacketSize w = Reader.MaxPacketSize r ->
  Len out1 < 2 ^ (8 * n) -> Len out2 < 2 ^ (8 * n) ->
  Writer.MaxPacketSize w <= 0
  \/ (Len out1 <= Writer.MaxPacketSize w /\ Len out2 <= Writer.MaxPacketSize w) ->
  healthy cw ->
  exists w1 c1 w2 c2 wire,
    Writer.WritePacket w cw out1 = Ok (None, w1, c1)
    /\ Writer.WritePacket w1 c1 out2 = Ok (None, w2, c2)
    /\ sent c2 = sent cw ++ wire
    /\ forall (cr : Conn) (inb : InBuffer) (rest : list byte),
        carries (rd cr) (wire ++ rest) ->
        exists r1 cr1 r2 cr2,
          Reader.ReadPacket r cr inb
          = Ok (None, r1, cr1, received inb (Get out1))
          /\ Reader.ReadPacket r1 cr1 (received inb (Get out1))
             = Ok (None, r2, cr2, received (received inb (Get out1)) (Get out2))
          /\ carries (rd cr2) rest.
Proof.
  intros Hw Hr HM Hfit1 Hfit2 Hlim Hc.
  assert (Hlim1 : over_limit (Writer.MaxPacketSize w) (Len out1) = false)
    by (apply over_limit_false; tauto).
  assert (Hlim2 : over_limit (Writer.MaxPacketSize w) (Len out2) = false)
    by (apply over_limit_false; tauto).
  destruct (write_frame n o w cw out1 Hw Hc Hlim1)
    as (h1 & c1 & E1 & Hl1 & Hs1 & _ & Hc1 & Hd1).
  pose proof (WritePacket_keeps_writer _ _ _ _ _ _ _ _ Hw E1) as Hw1.
  destruct (write_frame n o (Writer.set_head w h1) c1 out2 Hw1 Hc1 Hlim2)
    as (h2 & c2 & E2 & Hl2 & Hs2 & _ & _ & Hd2).
  exists (Writer.set_head w h1), c1, (Writer.set_head (Writer.set_head w h1) h2), c2,
    ((h1 ++ Get out1) ++ h2 ++ Get out2).
  split; [assumption|]. split; [assumption|].
  split; [rewrite Hs2, Hs1, <- !app_assoc; reflexivity|].
  intros cr inb rest Hcar.
  destruct (read_frame r cr inb h1 (Get out1) ((h2 ++ Get out2) ++ rest))
    as (cr1 & R1 & Hcar1 & _).
  - rewrite (reader_head_length n o r Hr). assumption.
  - rewrite <- !app_assoc in Hcar. rewrite <- !app_assoc. assumption.
  - rewrite (Hd1 r Hr). f_equal. apply in_range_decodes. assumption.
  - rewrite <- HM. exact Hlim1.
  - pose proof (ReadPacket_keeps_reader _ _ _ _ _ _ _ _ _ Hr R1) as Hr1.
    destruct (read_frame (Reader.set_head r h1) cr1 (received inb (Get out1))
                h2 (Get out2) rest) as (cr2 & R2 & Hcar2 & _).
    + rewrite (reader_head_length n o _ Hr1). assumption.
    + rewrite <- !app_assoc in Hcar1. assumption.
    + rewrite (Hd2 _ Hr1). f_equal. apply in_range_decodes. assumption.
    + cbn [Reader.set_head Reader.MaxPacketSize]. rewrite <- HM. exact Hlim2.
    + exists (Reader.set_head r h1), cr1,
        (Reader.set_head (Reader.set_head r h1) h2), cr2.
      split; [exact R1|]. split; [exact R2|]. assumption.
Qed.

Lemma two_frames_keep_their_order_witness :
  exists w r,
    Protocol.NewWriter (Protocol.mkPNProtocol 0 1 BigEndian tt) = Ok w
    /\ Protocol.NewReader (Protocol.mkPNProtocol 0 1 BigEndian tt) = Ok r
    /\ exists w1 c1 w2 c2 wire,
        Writer.WritePacket w (mkConn [] [] []) hello = Ok (None, w1, c1)
        /\ Writer.WritePacket w1 c1 empty = Ok (None, w2, c2)
        /\ sent c2 = sent (mkConn [] [] []) ++ wire
        /\ forall (cr : Conn) (inb : InBuffer) (rest : list byte),
            carries (rd cr) (wire ++ rest) ->
            exists r1 cr1 r2 cr2,
              Reader.ReadPacket r cr inb
              = Ok (None, r1, cr1, received inb (Get hello))
              /\ Reader.ReadPacket r1 cr1 (received inb (Get hello))
                 = Ok (None, r2, cr2,
                       received (received inb (Get hello)) (Get empty))
              /\ carries (rd cr2) rest.
Proof.
  eexists. eexists. split; [reflexivity|]. split; [reflexivity|].
  apply (two_frames_keep_their_order 1 BigEndian _ _ (mkConn [] [] []) hello empty).
  - eexists. split; [reflexivity|]. split; reflexivity.
  - eexists. split; [reflexivity|]. split; reflexivity.
  - reflexivity.
  - reflexivity.
  - reflexivity.
  - left. reflexivity.
  - constructor.
Defined.

(** ** A stream that ends too early *)

Lemma clean_carries (s : list rd_event) :
  forall bs rest, clean s -> pending s = bs ++ rest -> carries s bs.
Proof.
  induction s as [|[d e] s IH]; intros bs rest Hcl Hp.
  - cbn in Hp. symmetry in Hp. apply app_eq_nil in Hp. cbn. tauto.
  - inversion Hcl as [|? ? He Hs]; subst. rewrite pending_cons in Hp. cbn [carries].
    destruct (Nat.le_gt_cases (length bs) (length d)) as [Hle|Hgt].
    + left. symmetry in Hp.
      destruct (app_eq_split _ _ _ _ _ (eq_sym Hp) Hle) as (m & -> & _).
      exists m. reflexivity.
    + right. split; [reflexivity|]. symmetry in Hp.
      destruct (app_eq_split _ _ _ _ _ Hp (Nat.lt_le_incl _ _ Hgt)) as (m & -> & Hm).
      exists m. split; [reflexivity|]. apply (IH m rest Hs Hm).
Qed.

Lemma ReadAtLeast_loop_short (fuel : nat) :
  forall (c : Conn) (buf : list byte) (min n : nat),
    clean (rd c) -> length buf = min ->
    (n + length (pending (rd c)) < min)%nat ->
    (length (rd c) < fuel)%nat ->
    ReadAtLeast_loop fuel c buf min n None
    = Ok (firstn n buf ++ pending (rd c)
            ++ skipn (n + length (pending (rd c))) buf,
          (n + length (pending (rd c)))%nat, Some EOF, set_rd c []).
Proof.
  induction fuel as [|fuel IH]; intros c buf min n Hcl Hbuf Hshort Hf; [lia|].
  cbn [ReadAtLeast_loop is_nil].
  replace ((n <? min)%nat) with true by (symmetry; apply Nat.ltb_lt; lia).
  cbn [andb]. unfold Read.
  destruct c as [s ws st]. cbn [rd] in *.
  destruct s as [|[d e] s'].
  - rewrite ReadAtLeast_loop_exit_err. cbn [pending flat_map length app].
    unfold store_at, set_rd. cbn [app length rd wr sent].
    rewrite !Nat.add_0_r. reflexivity.
  - inversion Hcl as [|? ? He Hs]; subst. rewrite pending_cons, length_app in *.
    cbn [length] in Hf.
    replace ((length d <=? length buf - n)%nat) with true
      by (symmetry; apply Nat.leb_le; lia).
    rewrite (IH (set_rd (mkConn (Rd d None :: s') ws st) s')
               (store_at buf n d) (length buf) (n + length d)%nat); cbn [rd set_rd];
      try assumption; try lia.
    + rewrite firstn_store_at, skipn_store_at by lia.
      rewrite <- !app_assoc, Nat.add_assoc. reflexivity.
    + apply length_store_at. lia.
Qed.

(** On a stream that ends, without an error, before the buffer is full,
    [ReadFull] returns [EOF] when no byte came and [ErrUnexpectedEOF] when
    some did. *)
Lemma ReadFull_short (c : Conn) (buf : list byte) :
  clean (rd c) -> (length (pending (rd c)) < length buf)%nat ->
  ReadFull c buf
  = Ok (pending (rd c) ++ skipn (length (pending (rd c))) buf,
        length (pending (rd c)),
        Some (match pending (rd c) with [] => EOF | _ => ErrUnexpectedEOF end),
        set_rd c []).
Proof.
  intros Hcl Hshort. unfold ReadFull, ReadAtLeast. rewrite Nat.ltb_irrefl.
  rewrite (ReadAtLeast_loop_short _ c buf (length buf) 0) by (auto; lia).
  cbn [bind firstn app Nat.add].
  replace ((length buf <=? length (pending (rd c)))%nat) with false
    by (symmetry; apply Nat.leb_gt; lia).
  destruct (pending (rd c)); reflexivity.
Qed.

(** X10.  A stream that ends inside the header: when the peer closes,
    without an error, before [n] bytes have come, [ReadPacket] returns
    [EOF] if no byte came at all and [ErrUnexpectedEOF] if some did; the
    caller's buffer is untouched. *)
Theorem header_cut_short (n : Z) (o : ByteOrder) (r : Reader.PNReader)
    (conn : Conn) (inb : InBuffer) :
  reader_for n o r -> clean (rd conn) ->
  (length (pending (rd conn)) < Z.to_nat n)%nat ->
  Reader.ReadPacket r conn inb
  = Ok (Some (match pending (rd conn) with [] => EOF | _ => ErrUnexpectedEOF end),
        Reader.set_head r
          (pending (rd conn) ++ skipn (length (pending (rd conn))) (Reader.head r)),
        set_rd conn [], inb).
Proof.
  intros Hr Hcl Hshort. unfold Reader.ReadPacket.
  rewrite ReadFull_short; [reflexivity|assumption|].
  rewrite (reader_head_length n o r Hr). assumption.
Qed.

Lemma header_cut_short_witness :
  exists r,
    Protocol.NewReader (Protocol.mkPNProtocol 0 4 BigEndian tt) = Ok r
    /\ Reader.ReadPacket r (mkConn [Rd [x00; x00] None; Rd [x01] None] [] [])
         (mkIn [x2a] [1])
       = Ok (Some ErrUnexpectedEOF, Reader.set_head r [x00; x00; x01; x00],
             mkConn [] [] [], mkIn [x2a] [1]).
Proof.
  eexists. split; [reflexivity|].
  refine (header_cut_short 4 BigEndian _
            (mkConn [Rd [x00; x00] None; Rd [x01] None] [] []) (mkIn [x2a] [1])
            _ _ _).
  - eexists. split; [reflexivity|]. split; reflexivity.
  - repeat constructor.
  - simpl. lia.
Defined.

(** X11.  A stream that ends inside the payload: after a whole header that
    announces [L > 0] bytes within the limit, when the peer closes, without
    an error, before [L] bytes have come, [ReadPacket] returns
    [ErrUnexpectedEOF] if some payload bytes came, but plain [EOF] if none
    did.  The caller's buffer has been prepared for [L] bytes and holds the
    bytes that came. *)
Theorem payload_cut_short (n : Z) (o : ByteOrder) (r : Reader.PNReader)
    (conn : Conn) (inb : InBuffer) (h part : list byte) (L : Z) :
  reader_for n o r -> clean (rd conn) ->
  pending (rd conn) = h ++ part -> length h = Z.to_nat n ->
  Reader.decodeHead r h = Ok L ->
  Reader.MaxPacketSize r <= 0 \/ L <= Reader.MaxPacketSize r ->
  Z.of_nat (length part) < L ->
  exists conn',
    Reader.ReadPacket r conn inb
    = Ok (Some (match part with [] => EOF | _ => ErrUnexpectedEOF end),
          Reader.set_head r h, conn',
          mkIn (part ++ skipn (length part) (repeat x00 (Z.to_nat L)))
            (L :: Prepared inb))
    /\ rd conn' = [].
Proof.
  intros Hr Hcl Hp Hlen Hdec Hlim Hshort. unfold Reader.ReadPacket.
  assert (Hcar : carries (rd conn) (h ++ [])).
  { rewrite app_nil_r. apply (clean_carries _ h part Hcl Hp). }
  destruct (ReadFull_carries conn (Reader.head r) h [] Hcar) as (c1 & E1 & _ & Hp1 & _).
  { rewrite (reader_head_length n o r Hr). auto. }
  destruct (ReadFull_consumes _ _ _ _ _ _ E1) as (_ & _ & _ & _ & _ & Hcl1).
  specialize (Hcl1 Hcl).
  assert (Hpart : pending (rd c1) = part).
  { rewrite Hp in Hp1. apply app_inv_head in Hp1. auto. }
  rewrite E1.
  cbn [bind Reader.head Reader.set_head Reader.decodeHead Reader.MaxPacketSize].
  rewrite Hdec. cbn [bind].
  replace (L =? 0) with false by (symmetry; apply Z.eqb_neq; lia).
  fold (over_limit (Reader.MaxPacketSize r) L). rewrite (over_limit_false _ _ Hlim).
  unfold Prepare. replace (L <? 0) with false by (symmetry; apply Z.ltb_ge; lia).
  cbn [bind InGet InData].
  rewrite ReadFull_short; [|assumption|rewrite Hpart, repeat_length; lia].
  rewrite Hpart. cbn [bind fill Prepared]. exists (set_rd c1 []).
  split; [|reflexivity]. destruct part; reflexivity.
Qed.

Lemma payload_cut_short_witness :
  exists r,
    Protocol.NewReader (Protocol.mkPNProtocol 0 2 BigEndian tt) = Ok r
    /\ exists conn',
        Reader.ReadPacket r (mkConn [Rd [x00] None; Rd [x05] None] [] []) (mkIn [x2a] [1])
        = Ok (Some EOF, Reader.set_head r [x00; x05], conn',
              mkIn ([] ++ skipn (length (@nil byte)) (repeat x00 (Z.to_nat 5)))
                (5 :: Prepared (mkIn [x2a] [1])))
        /\ rd conn' = [].
Proof.
  eexists. split; [reflexivity|].
  apply (payload_cut_short 2 BigEndian _
           (mkConn [Rd [x00] None; Rd [x05] None] [] []) (mkIn [x2a] [1])
           [x00; x05] [] 5).
  - eexists. split; [reflexivity|]. split; reflexivity.
  - repeat constructor.
  - reflexivity.
  - reflexivity.
  - reflexivity.
  - left. reflexivity.
  - reflexivity.
Defined.

(** ** The limit at width 8 *)

Lemma to_int_high (u : Z) : 2 ^ 63 <= u < 2 ^ 64 -> to_int u = u - 2 ^ 64.
Proof.
  intros H. unfold to_int. change (2 ^ 63) with 9223372036854775808 in *.
  pow2_consts. Z.div_mod_to_equations. lia.
Qed.

Lemma Uint64_range (o : ByteOrder) (h : list byte) (u : Z) :
  length h = 8%nat -> Uint64 o h = Ok u -> 0 <= u < 2 ^ 64.
Proof.
  intros Hlen. explicit_list h Hlen.
  destruct (reorder8 o b b0 b1 b2 b3 b4 b5 b6)
    as (c0 & c1 & c2 & c3 & c4 & c5 & c6 & c7 & ->).
  clear b b0 b1 b2 b3 b4 b5 b6. byte_ranges.
  rewrite Uint64_bytes. intros [= <-]. pow2_consts. lia.
Qed.

(** C3 fails on the code at width 8.  A header of eight bytes whose
    unsigned value [u] is [2^63] or more is greater than every limit, yet
    [decodeHead] turns it, through [int(uint64)], into the negative
    [u - 2^64]; the check [size > MaxPacketSize] then lets it pass, for
    every limit, and [ReadPacket] goes on to [Prepare] with a negative size
    instead of returning [PacketTooLargeError].  The limit is a Go [int],
    hence at most [MaxInt]. *)
Theorem read_limit_missed_at_width_8 (o : ByteOrder) (r : Reader.PNReader)
    (conn : Conn) (inb : InBuffer) (h rest : list byte) (u : Z) :
  reader_for 8 o r -> length h = 8%nat ->
  carries (rd conn) (h ++ rest) ->
  Uint64 o h = Ok u -> 2 ^ 63 <= u ->
  Reader.MaxPacketSize r <= MaxInt ->
  Reader.MaxPacketSize r < u
  /\ Reader.decodeHead r h = Ok (u - 2 ^ 64)
  /\ u - 2 ^ 64 < 0
  /\ (0 <? Reader.MaxPacketSize r) && (Reader.MaxPacketSize r <? u - 2 ^ 64) = false
  /\ Reader.ReadPacket r conn inb = Panic "slice bounds out of range".
Proof.
  intros Hr Hlen Hc Hu Hhigh HM.
  pose proof (Uint64_range o h u Hlen Hu) as Hrange.
  assert (Hdec : Reader.decodeHead r h = Ok (u - 2 ^ 64)).
  { destruct Hr as (r0 & Er & -> & _). built Er. cbn [Reader.decodeHead].
    rewrite Hu. cbn [bind]. rewrite to_int_high by lia. reflexivity. }
  assert (Hneg : u - 2 ^ 64 < 0) by lia.
  assert (Hlim : (0 <? Reader.MaxPacketSize r)
                 && (Reader.MaxPacketSize r <? u - 2 ^ 64) = false).
  { destruct (Z.ltb_spec 0 (Reader.MaxPacketSize r)); [|reflexivity].
    destruct (Z.ltb_spec (Reader.MaxPacketSize r) (u - 2 ^ 64)); [lia|reflexivity]. }
  split; [|split; [assumption|split; [assumption|split; [assumption|]]]].
  - unfold MaxInt in HM. lia.
  - unfold Reader.ReadPacket.
    destruct (ReadFull_carries conn (Reader.head r) h rest Hc) as (c1 & E1 & _).
    { rewrite (reader_head_length 8 o r Hr). rewrite Hlen. reflexivity. }
    rewrite E1.
    cbn [bind Reader.head Reader.set_head Reader.decodeHead Reader.MaxPacketSize].
    rewrite Hdec. cbn [bind].
    replace (u - 2 ^ 64 =? 0) with false by (symmetry; apply Z.eqb_neq; lia).
    rewrite Hlim. unfold Prepare.
    replace (u - 2 ^ 64 <? 0) with true by (symmetry; apply Z.ltb_lt; lia).
    reflexivity.
Qed.

Lemma read_limit_missed_at_width_8_witness :
  exists r,
    Protocol.NewReader (Protocol.mkPNProtocol 10 8 BigEndian tt) = Ok r
    /\ Reader.MaxPacketSize r < 18446744073709551615
    /\ Reader.decodeHead r [xff; xff; xff; xff; xff; xff; xff; xff]
       = Ok (18446744073709551615 - 2 ^ 64)
    /\ 18446744073709551615 - 2 ^ 64 < 0
    /\ (0 <? Reader.MaxPacketSize r)
       && (Reader.MaxPacketSize r <? 18446744073709551615 - 2 ^ 64) = false
    /\ Reader.ReadPacket r
         (mkConn [Rd [xff; xff; xff; xff; xff; xff; xff; xff; x61] None] [] [])
         (mkIn [] [])
       = Panic "slice bounds out of range".
Proof.
  eexists. split; [reflexivity|].
  apply (read_limit_missed_at_width_8 BigEndian _
           (mkConn [Rd [xff; xff; xff; xff; xff; xff; xff; xff; x61] None] [] [])
           (mkIn [] []) [xff; xff; xff; xff; xff; xff; xff; xff] [x61]
           18446744073709551615).
  - eexists. split; [reflexivity|]. split; reflexivity.
  - reflexivity.
  - simpl. left. exists []. reflexivity.
  - reflexivity.
  - vm_compute. discriminate.
  - vm_compute. discriminate.
Defined.
